(** * NA-mask support of the NumPy array: a shallow embedding of
      [numpy/core/src/multiarray/na_mask.c]

    The three API functions of the file are embedded:
    [PyArray_HasNASupport], [PyArray_ContainsNA] and
    [PyArray_AllocateMaskNA].

    Modelling conventions.
    - [npy_intp] is the signed 64-bit integer of the LP64 platforms; its
      values are integers of [Z] between [NPY_MIN_INTP] and [NPY_MAX_INTP].
      The file multiplies two of them in one place, "stride *=
      shape[i_perm]" of the stride loop: [intp_mul] gives the product when
      it is in range, and signed overflow, which is undefined in C, is
      undefined behaviour of the model too.  A call that returns has
      therefore computed every stride inside [npy_intp].  The results on
      the values of the strides, and those that promise a return, are
      stated for the arrays that are not too big ([array_fits_intp], the
      bound that the array constructor enforces): on these no product
      overflows, and the element count [PyArray_SIZE] fits as well.
    - The C heap is a list of blocks (one per [malloc]); a pointer is a
      block and a byte offset, so that the old mask may be addressed from
      the middle of its buffer with negative strides.  A freed block stays
      in the list as [None]: the length of the heap counts the allocations
      made so far.
    - The function runs in a state and error monad: the state holds the
      array object, the heap and the Python error indicator, the result is
      the C return value, and [None] stands for undefined behaviour (a load
      or store outside a live block, a null pointer dereferenced).
    - The answers of the collaborators that can fail (descriptor registry,
      allocator, cast machinery) and the contents of fresh memory are read
      from a [World].
    - Reference counts of descriptors are not modelled. *)

From Stdlib Require Import ZArith Lia.
From stdpp Require Import base option list sorting strings.

Local Open Scope Z_scope.

(** ** Data model *)

Abbreviation npy_intp := Z.
Abbreviation npy_bool := bool.

(** The range of [npy_intp] (npy_common.h, 8-byte pointers). *)
Definition NPY_MAX_INTP : Z := 9223372036854775807.
Definition NPY_MIN_INTP : Z := -9223372036854775808.

Definition intp_fits (z : Z) : Prop := NPY_MIN_INTP <= z <= NPY_MAX_INTP.

#[global] Instance intp_fits_dec z : Decision (intp_fits z).
Proof. unfold intp_fits. apply _. Defined.

(** The product of two [npy_intp] values as C computes it: defined when
    it is representable. *)
Definition intp_mul (x y : npy_intp) : option npy_intp :=
  if bool_decide (intp_fits (x * y)) then Some (x * y) else None.

(** [NPY_MAXDIMS] of ndarraytypes.h: the length of the local arrays
    [strideperm] and [maskna_strides]. *)
Definition NPY_MAXDIMS : nat := 32.
#[global] Opaque NPY_MAXDIMS.

(** Modelled from the spec: the two capability bits of [fa->flags] that
    na_mask.c tests and sets ("flags & NPY_ARRAY_MASKNA"); their defining
    header is not part of the sources.  The development only uses that
    they are two different single bits. *)
Definition NPY_ARRAY_MASKNA : Z := 0x2000.
Definition NPY_ARRAY_OWNMASKNA : Z := 0x4000.

(** Type numbers: the two mask representations, and two data types so
    that arrays with and without fields can be written down. *)
Inductive NPY_TYPES := NPY_BOOL | NPY_MASK | NPY_DOUBLE | NPY_VOID.

#[global] Instance NPY_TYPES_eq_dec : EqDecision NPY_TYPES.
Proof. solve_decision. Defined.

Record PyArray_Descr := {
  type_num : NPY_TYPES;
  elsize : npy_intp;
  names : option (list string)
}.

#[global] Instance PyArray_Descr_eq_dec : EqDecision PyArray_Descr.
Proof. solve_decision. Defined.

(** A pointer into the heap: block and byte offset. *)
Record ptr := { blk : nat; ofs : Z }.

#[global] Instance ptr_eq_dec : EqDecision ptr.
Proof. solve_decision. Defined.

Definition ptr_add (p : ptr) (d : Z) : ptr :=
  {| blk := blk p; ofs := ofs p + d |}.

Infix "+ₚ" := ptr_add (at level 50, left associativity).

(** The facet of [PyArrayObject_fieldaccess] that na_mask.c reads and
    writes. *)
Record PyArrayObject_fieldaccess := {
  nd : nat;
  dimensions : list npy_intp;
  strides : list npy_intp;
  descr : PyArray_Descr;
  flags : Z;
  maskna_dtype : option PyArray_Descr;
  maskna_data : option ptr;
  maskna_strides : list npy_intp
}.

Record _npy_stride_sort_item := { perm : nat; stride : npy_intp }.

(** ** Heap *)

Abbreviation heap := (list (option (list Z))).

Definition load (h : heap) (p : ptr) : option Z :=
  b ← h !! blk p;
  data ← b;
  if bool_decide (0 <= ofs p) then data !! Z.to_nat (ofs p) else None.

Definition store (h : heap) (p : ptr) (v : Z) : option heap :=
  b ← h !! blk p;
  data ← b;
  if bool_decide (0 <= ofs p < Z.of_nat (length data))
  then Some (<[blk p := Some (<[Z.to_nat (ofs p) := v]> data)]> h)
  else None.

(** [n] consecutive bytes starting at [p], as [memcpy] reads them. *)
Fixpoint load_range (h : heap) (p : ptr) (n : nat) : option (list Z) :=
  match n with
  | O => Some []
  | S n' => v ← load h p; vs ← load_range h (p +ₚ 1) n'; Some (v :: vs)
  end.

(** The bytes [vs] stored consecutively from [p], as [memcpy] and [memset]
    write them. *)
Fixpoint store_range (h : heap) (p : ptr) (vs : list Z) : option heap :=
  match vs with
  | [] => Some h
  | v :: vs' => h' ← store h p v; store_range h' (p +ₚ 1) vs'
  end.

(** ** State, world and monad *)

Inductive PyExc :=
  | PyExc_RuntimeError (msg : string)
  | PyExc_MemoryError
  | PyExc_FromCollaborator.

Record state := {
  fa : PyArrayObject_fieldaccess;
  mem : heap;
  pyerr : option PyExc
}.

Record World := {
  descr_available : bool;
  malloc_succeeds : bool;
  cast_succeeds : bool;
  junk : nat → Z
}.

Definition M (A : Type) : Type := state → option (A * state).

#[global] Instance M_ret : MRet M := λ A x s, Some (x, s).
#[global] Instance M_bind : MBind M := λ A B f m s,
  match m s with
  | Some (x, s') => f x s'
  | None => None
  end.

Definition undefined {A} : M A := λ _, None.
Definition get_fa : M PyArrayObject_fieldaccess := λ s, Some (fa s, s).
Definition get_mem : M heap := λ s, Some (mem s, s).
Definition put_fa (a : PyArrayObject_fieldaccess) : M unit :=
  λ s, Some (tt, {| fa := a; mem := mem s; pyerr := pyerr s |}).
Definition put_mem (h : heap) : M unit :=
  λ s, Some (tt, {| fa := fa s; mem := h; pyerr := pyerr s |}).
Definition put_err (e : PyExc) : M unit :=
  λ s, Some (tt, {| fa := fa s; mem := mem s; pyerr := Some e |}).

(** A partial result lifted into the monad: [None] is undefined
    behaviour. *)
Definition defined {A} (o : option A) : M A :=
  match o with Some x => mret x | None => undefined end.

(** ** Collaborators *)

Definition flag_set (a : PyArrayObject_fieldaccess) (bit : Z) : bool :=
  negb (Z.land (flags a) bit =? 0).

(** [PyArray_HASMASKNA], [PyArray_HASFIELDS] and [PyArray_SIZE] are the
    accessor macros of the array header. *)
Definition PyArray_HASMASKNA (a : PyArrayObject_fieldaccess) : bool :=
  flag_set a NPY_ARRAY_MASKNA.

Definition PyArray_HASFIELDS (a : PyArrayObject_fieldaccess) : bool :=
  bool_decide (names (descr a) ≠ None).

Definition PyArray_MultiplyList (l : list npy_intp) (n : nat) : npy_intp :=
  foldr Z.mul 1 (take n l).

Definition PyArray_SIZE (a : PyArrayObject_fieldaccess) : npy_intp :=
  PyArray_MultiplyList (dimensions a) (nd a).

Definition PyErr_SetString (e : string → PyExc) (msg : string) : M unit :=
  put_err (e msg).

Definition PyErr_NoMemory : M unit := put_err PyExc_MemoryError.

(** Modelled from the spec: [PyArray_DescrFromType], the descriptor
    registry; both mask representations are one byte per element.  It can
    fail, in which case it has set the error indicator. *)
Definition PyArray_DescrFromType (w : World) (t : NPY_TYPES)
  : M (option PyArray_Descr) :=
  if descr_available w
  then mret (Some {| type_num := t; elsize := 1; names := None |})
  else put_err PyExc_FromCollaborator;; mret None.

(** The raw allocator: a fresh block of [n] bytes of unspecified contents,
    or [NULL]. *)
Definition PyArray_malloc (w : World) (n : Z) : M (option ptr) :=
  if malloc_succeeds w
  then h ← get_mem;
       put_mem (h ++ [Some (junk w <$> seq 0 (Z.to_nat n))]);;
       mret (Some {| blk := length h; ofs := 0 |})
  else mret None.

Definition PyArray_free (p : ptr) : M unit :=
  h ← get_mem; put_mem (<[blk p := None]> h).

Definition memcpy (dst src : ptr) (n : Z) : M unit :=
  h ← get_mem;
  vs ← defined (load_range h src (Z.to_nat n));
  h' ← defined (store_range h dst vs);
  put_mem h'.

Definition memset (dst : ptr) (c : Z) (n : Z) : M unit :=
  h ← get_mem;
  h' ← defined (store_range h dst (replicate (Z.to_nat n) c));
  put_mem h'.

(** Modelled from the spec: the value cast between the two mask
    representations ("value-preserving cast").  Equal types copy the
    byte; a Boolean keeps its 0 or 1 as a MultiNA code; a MultiNA code
    becomes the Boolean that says whether it is nonzero. *)
Definition cast_value (src_t dst_t : NPY_TYPES) (v : Z) : Z :=
  if decide (src_t = dst_t) then v
  else match dst_t with
       | NPY_BOOL => if v =? 0 then 0 else 1
       | _ => v
       end.

Definition is_mask_type (t : NPY_TYPES) : bool :=
  match t with NPY_BOOL | NPY_MASK => true | _ => false end.

(** One element after the other: load at the source offset, cast, store
    at the destination offset. *)
Fixpoint cast_loop (src_t dst_t : NPY_TYPES) (src dst : ptr)
    (offs : list (Z * Z)) (h : heap) : option heap :=
  match offs with
  | [] => Some h
  | (so, do) :: rest =>
      v ← load h (src +ₚ so);
      h' ← store h (dst +ₚ do) (cast_value src_t dst_t v);
      cast_loop src_t dst_t src dst rest h'
  end.

(** Shared body of the two cast entry points: the set-up can fail (it
    then has set the error indicator and nothing was written), the
    element loop cannot. *)
Definition cast_raw (w : World) (src dst : ptr) (offs : list (Z * Z))
    (src_dtype dst_dtype : PyArray_Descr) : M Z :=
  if cast_succeeds w && is_mask_type (type_num src_dtype)
       && is_mask_type (type_num dst_dtype)
  then h ← get_mem;
       h' ← defined (cast_loop (type_num src_dtype) (type_num dst_dtype)
                             src dst offs h);
       put_mem h';; mret 0
  else put_err PyExc_FromCollaborator;; mret (-1).

(** Modelled from the spec: [PyArray_CastRawArrays], the strided
    element-wise cast of [count] elements of a 1-D source into a 1-D
    destination. *)
Definition PyArray_CastRawArrays (w : World) (count : npy_intp)
    (src dst : ptr) (src_stride dst_stride : npy_intp)
    (src_dtype dst_dtype : PyArray_Descr) : M Z :=
  cast_raw w src dst
    ((λ k, (k * src_stride, k * dst_stride)) <$> seqZ 0 count)
    src_dtype dst_dtype.

(** All multi-indices of a shape in logical axis order (the last axis
    runs fastest). *)
Fixpoint indices (shape : list npy_intp) : list (list npy_intp) :=
  match shape with
  | [] => [[]]
  | n :: shape' => i ← seqZ 0 n; (cons i) <$> indices shape'
  end.

(** Byte offset of the element at a multi-index. *)
Fixpoint offset (idx strides : list npy_intp) : Z :=
  match idx, strides with
  | i :: idx', s :: strides' => i * s + offset idx' strides'
  | _, _ => 0
  end.

(** Modelled from the spec: [PyArray_CastRawNDimArrays], the strided
    element-wise cast of an N-D source into an N-D destination,
    "iterating in logical axis order" so that the element at a
    multi-index of the source lands at the same multi-index of the
    destination. *)
Definition PyArray_CastRawNDimArrays (w : World) (ndim : nat)
    (shape : list npy_intp) (src dst : ptr)
    (src_strides dst_strides : list npy_intp)
    (src_dtype dst_dtype : PyArray_Descr) : M Z :=
  cast_raw w src dst
    ((λ idx, (offset idx (take ndim src_strides),
              offset idx (take ndim dst_strides)))
       <$> indices (take ndim shape))
    src_dtype dst_dtype.

(** Modelled from the spec: [PyArray_CreateSortedStridePerm] of shape.c,
    the stride-sorted permutation: the axes ordered by the absolute value
    of their stride, equal magnitudes ordered by axis index.  The items
    are stored with the largest magnitude first, so that the caller's
    loop, which runs from the last item to the first, walks the axes
    "from smallest to largest". *)
Definition item_before (a b : _npy_stride_sort_item) : bool :=
  if bool_decide (Z.abs (stride a) = Z.abs (stride b))
  then bool_decide (perm a < perm b)%nat
  else bool_decide (Z.abs (stride b) < Z.abs (stride a)).

Fixpoint insert_item (x : _npy_stride_sort_item)
    (l : list _npy_stride_sort_item) : list _npy_stride_sort_item :=
  match l with
  | [] => [x]
  | y :: l' => if item_before x y then x :: y :: l' else y :: insert_item x l'
  end.

Definition PyArray_CreateSortedStridePerm (ndim : nat)
    (strides : list npy_intp) : list _npy_stride_sort_item :=
  foldr insert_item []
    (imap (λ i s, {| perm := i; stride := s |}) (take ndim strides)).

(** ** The functions of na_mask.c *)

Definition PyArray_HasNASupport (arr : PyArrayObject_fieldaccess) : npy_bool :=
  PyArray_HASMASKNA arr.

Definition PyArray_ContainsNA (arr : PyArrayObject_fieldaccess) (h : heap)
  : npy_bool :=
  (* Need NA support to contain NA *)
  if negb (PyArray_HasNASupport arr) then false
  else
    (* TODO: Loop through NA mask *)
    false.

(** The loop that fills the local [maskna_strides] of the rank >= 2
    branch: [i] runs from [fa->nd-1] down to [0]; the argument counts the
    iterations that are left, so that the item read is [strideperm[i]] for
    [i] one less.  Every iteration ends with "stride *= shape[i_perm]",
    the last one too, although its product is not stored. *)
Fixpoint fill_maskna_strides (left : nat)
    (strideperm : list _npy_stride_sort_item) (shape : list npy_intp)
    (stride : npy_intp) (maskna_strides : list npy_intp)
  : option (list npy_intp) :=
  match left with
  | O => Some maskna_strides
  | S i =>
      it ← strideperm !! i;
      let i_perm := perm it in
      if bool_decide (i_perm < length maskna_strides)%nat then
        n ← shape !! i_perm;
        stride' ← intp_mul stride n;
        fill_maskna_strides i strideperm shape stride'
          (<[i_perm := stride]> maskna_strides)
      else None
  end.

(** The last three statements: "Set the NA mask data in the array". *)
Definition install_mask (maskna_dtype : PyArray_Descr) (maskna_data : ptr)
  : M Z :=
  a ← get_fa;
  put_fa {| nd := nd a; dimensions := dimensions a; strides := strides a;
            descr := descr a;
            flags := Z.lor (flags a)
                       (Z.lor NPY_ARRAY_MASKNA NPY_ARRAY_OWNMASKNA);
            maskna_dtype := Some maskna_dtype;
            maskna_data := Some maskna_data;
            maskna_strides := maskna_strides a |};;
  mret 0.

Definition set_maskna_strides (l : list npy_intp) : M unit :=
  a ← get_fa;
  put_fa {| nd := nd a; dimensions := dimensions a; strides := strides a;
            descr := descr a; flags := flags a;
            maskna_dtype := maskna_dtype a;
            maskna_data := maskna_data a;
            maskna_strides := l |}.

Definition PyArray_AllocateMaskNA (w : World) (ownmaskna multina : npy_bool)
  : M Z :=
  a ← get_fa;
  (* If the array already owns a mask, done *)
  if flag_set a NPY_ARRAY_OWNMASKNA then mret 0
  (* If ownership wasn't requested, and there's already a mask, done *)
  else if negb ownmaskna && flag_set a NPY_ARRAY_MASKNA then mret 0
  else
    let size := PyArray_SIZE a in
    (* Create the mask dtype *)
    if PyArray_HASFIELDS a then
      PyErr_SetString PyExc_RuntimeError "NumPy field-NA isn't supported yet";;
      mret (-1)
    else
      d ← PyArray_DescrFromType w (if multina then NPY_MASK else NPY_BOOL);
      match d with
      | None => mret (-1)
      | Some maskna_dtype' =>
        (* Allocate the mask memory *)
        p ← PyArray_malloc w (size * elsize maskna_dtype');
        match p with
        | None => PyErr_NoMemory;; mret (-1)
        | Some maskna_data' =>
          (* Copy the data and fill in the strides *)
          if bool_decide (nd a = 1%nat) then
            (* If there already was a mask copy it, otherwise set it to
               all ones *)
            if flag_set a NPY_ARRAY_MASKNA then
              old_stride ← defined (maskna_strides a !! 0%nat);
              old_data ← defined (maskna_data a);
              if bool_decide (old_stride = 1) then
                memcpy maskna_data' old_data (size * elsize maskna_dtype');;
                set_maskna_strides
                  (<[0%nat := elsize maskna_dtype']> (maskna_strides a));;
                install_mask maskna_dtype' maskna_data'
              else
                count ← defined (dimensions a !! 0%nat);
                old_dtype ← defined (maskna_dtype a);
                r ← PyArray_CastRawArrays w count old_data maskna_data'
                      old_stride (elsize maskna_dtype')
                      old_dtype maskna_dtype';
                if bool_decide (r < 0) then
                  PyArray_free maskna_data';; mret (-1)
                else
                  set_maskna_strides
                    (<[0%nat := elsize maskna_dtype']> (maskna_strides a));;
                  install_mask maskna_dtype' maskna_data'
            else
              memset maskna_data' 1 (size * elsize maskna_dtype');;
              set_maskna_strides
                (<[0%nat := elsize maskna_dtype']> (maskna_strides a));;
              install_mask maskna_dtype' maskna_data'
          else if bool_decide (1 < nd a)%nat then
            let shape := dimensions a in
            (* This causes the NA mask and data memory orderings to match *)
            let strideperm :=
              PyArray_CreateSortedStridePerm (nd a) (strides a) in
            new_strides ← defined
              (fill_maskna_strides (nd a) strideperm shape
                 (elsize maskna_dtype') (replicate NPY_MAXDIMS 0));
            (* If there already was a mask copy it, otherwise set it to
               all ones *)
            if flag_set a NPY_ARRAY_MASKNA then
              old_data ← defined (maskna_data a);
              old_dtype ← defined (maskna_dtype a);
              r ← PyArray_CastRawNDimArrays w (nd a) (dimensions a)
                    old_data maskna_data'
                    (maskna_strides a) new_strides
                    old_dtype maskna_dtype';
              if bool_decide (r < 0) then
                PyArray_free maskna_data';; mret (-1)
              else
                set_maskna_strides
                  (take (nd a) new_strides ++ drop (nd a) (maskna_strides a));;
                install_mask maskna_dtype' maskna_data'
            else
              memset maskna_data' 1 (size * elsize maskna_dtype');;
              set_maskna_strides
                (take (nd a) new_strides ++ drop (nd a) (maskna_strides a));;
              install_mask maskna_dtype' maskna_data'
          else
            (* If there already was a mask copy it, otherwise set it to
               all ones *)
            (if flag_set a NPY_ARRAY_MASKNA then
               old_data ← defined (maskna_data a);
               h ← get_mem;
               v ← defined (load h old_data);
               h' ← defined (store h maskna_data' v);
               put_mem h'
             else
               h ← get_mem;
               h' ← defined (store h maskna_data' 1);
               put_mem h');;
            install_mask maskna_dtype' maskna_data'
        end
      end.

(** ** Observations on an array *)

Definition hasMask (a : PyArrayObject_fieldaccess) : Prop :=
  flag_set a NPY_ARRAY_MASKNA = true.

Definition ownsMask (a : PyArrayObject_fieldaccess) : Prop :=
  flag_set a NPY_ARRAY_OWNMASKNA = true.

(** The invariants of the array object that the file relies on: the
    rank is at most [NPY_MAXDIMS], the three per-axis arrays have one
    entry per axis, and no extent is negative.  The size of the array is
    not bounded here: on a shape whose products leave [npy_intp] the
    stride loop is undefined, and [array_fits_intp] is the bound under
    which it is not. *)
Definition wf_array (a : PyArrayObject_fieldaccess) : Prop :=
  (nd a ≤ NPY_MAXDIMS)%nat ∧
  length (dimensions a) = nd a ∧
  length (strides a) = nd a ∧
  length (maskna_strides a) = nd a ∧
  Forall (λ n, 0 <= n) (dimensions a).

(** A mask cell denotes NA when it is zero, in both representations. *)
Definition is_NA (c : Z) : bool := c =? 0.

(** The mask cell of the logical element at a multi-index, and its
    status ([true] for NA). *)
Definition mask_cell (a : PyArrayObject_fieldaccess) (h : heap)
    (idx : list npy_intp) : option Z :=
  p ← maskna_data a;
  load h (p +ₚ offset idx (take (nd a) (maskna_strides a))).

Definition element_status (a : PyArrayObject_fieldaccess) (h : heap)
    (idx : list npy_intp) : option bool :=
  is_NA <$> mask_cell a h idx.

(** The logical elements of an array. *)
Definition elements (a : PyArrayObject_fieldaccess) : list (list npy_intp) :=
  indices (take (nd a) (dimensions a)).

(** What [PyArray_ContainsNA] is documented to return: whether the array
    has NA support and some logical element's mask cell denotes NA. *)
Definition ContainsNA_spec (a : PyArrayObject_fieldaccess) (h : heap) : bool :=
  PyArray_HasNASupport a &&
  existsb (λ idx, bool_decide (element_status a h idx = Some true))
          (elements a).

(** A byte whose eight bits are all set. *)
Definition all_bits_one (c : Z) : Prop :=
  ∀ i, 0 <= i < 8 → Z.testbit c i = true.

(** ** Auxiliary definitions *)

Definition Zsum (l : list Z) : Z := foldr Z.add 0 l.
Definition Zprod (l : list Z) : Z := foldr Z.mul 1 l.

(** The loop seen from the axes it visits, with the products taken in
    the integers: [order] lists the axes in the order of the
    iterations. *)
Fixpoint assign_strides (order : list nat) (shape : list npy_intp)
    (stride : npy_intp) (ms : list npy_intp) : option (list npy_intp) :=
  match order with
  | [] => Some ms
  | ax :: rest =>
      if bool_decide (ax < length ms)%nat then
        n ← shape !! ax;
        assign_strides rest shape (stride * n) (<[ax := stride]> ms)
      else None
  end.

(** The extents of the axes of [order], in that order. *)
Definition extents (shape : list npy_intp) (order : list nat) : list npy_intp :=
  (λ ax : nat, shape !!! ax) <$> order.

(** The products that the loop forms when it visits the axes of [order]
    all fit [npy_intp]: after the axis at position [k] the running stride
    is the first stride times the extents of the axes up to [k]. *)
Definition products_fit (order : list nat) (shape : list npy_intp)
    (stride : npy_intp) : Prop :=
  ∀ k, (k < length order)%nat →
    intp_fits (stride * Zprod (extents shape (take (S k) order))).

(** The array is not too big: the product of its non-zero extents fits
    [npy_intp].  The array constructor refuses the shapes that break this
    bound ("array is too big"). *)
Definition array_fits_intp (a : PyArrayObject_fieldaccess) : Prop :=
  Zprod (filter (λ n, n ≠ 0) (take (nd a) (dimensions a))) <= NPY_MAX_INTP.

(** The value of a multi-index read as a mixed-radix numeral whose
    digits are taken in the order of the iterations. *)
Fixpoint radix_value (shape : list npy_intp) (order : list nat)
    (idx : list npy_intp) : Z :=
  match order with
  | [] => 0
  | ax :: rest => idx !!! ax + shape !!! ax * radix_value shape rest idx
  end.

(** [a] is stored no later than [b]: its stride is at least as large in
    magnitude. *)
Definition stride_ge (a b : _npy_stride_sort_item) : Prop :=
  Z.abs (stride b) <= Z.abs (stride a).

(** The axes in the order in which the stride loop visits them: from the
    back of the sorted permutation to its front. *)
Definition placement_order (a : PyArrayObject_fieldaccess) : list nat :=
  reverse (perm <$> PyArray_CreateSortedStridePerm (nd a) (strides a)).

Definition new_dtype (multina : npy_bool) : PyArray_Descr :=
  {| type_num := if multina then NPY_MASK else NPY_BOOL;
     elsize := 1; names := None |}.

(** The strides that the three rank branches leave in
    [fa->maskna_strides]. *)
Definition new_maskna_strides (a : PyArrayObject_fieldaccess) (e : npy_intp)
  : option (list npy_intp) :=
  if bool_decide (nd a = 1%nat) then Some (<[0%nat := e]> (maskna_strides a))
  else if bool_decide (1 < nd a)%nat then
    ms ← fill_maskna_strides (nd a)
            (PyArray_CreateSortedStridePerm (nd a) (strides a))
            (dimensions a) e (replicate NPY_MAXDIMS 0);
    Some (take (nd a) ms ++ drop (nd a) (maskna_strides a))
  else Some (maskna_strides a).

Definition installed (a : PyArrayObject_fieldaccess) (d : PyArray_Descr)
    (p : ptr) (l : list npy_intp) : PyArrayObject_fieldaccess :=
  {| nd := nd a; dimensions := dimensions a; strides := strides a;
     descr := descr a;
     flags := Z.lor (flags a) (Z.lor NPY_ARRAY_MASKNA NPY_ARRAY_OWNMASKNA);
     maskna_dtype := Some d; maskna_data := Some p; maskna_strides := l |}.

(** The call gets past the two early exits. *)
Definition allocates (a : PyArrayObject_fieldaccess) (ownmaskna : npy_bool)
  : Prop :=
  flag_set a NPY_ARRAY_OWNMASKNA = false ∧
  (ownmaskna = true ∨ flag_set a NPY_ARRAY_MASKNA = false).

(** The mask strides follow the data strides: an axis whose data stride
    is smaller in magnitude does not get the larger mask stride. *)
Definition strides_agree (n : nat) (data mask : list npy_intp) : Prop :=
  ∀ ax bx, (ax < n)%nat → (bx < n)%nat →
    Z.abs (data !!! ax) < Z.abs (data !!! bx) → mask !!! ax <= mask !!! bx.

(** The two ways of filling the new buffer of a rank-1 array from its
    prior mask, as the two branches of the function have them: the flat
    copy, taken when the old stride is 1, and the strided cast. *)
Definition rank1_flat_copy (a : PyArrayObject_fieldaccess)
    (maskna_dtype' : PyArray_Descr) (maskna_data' : ptr) : M Z :=
  old_data ← defined (maskna_data a);
  memcpy maskna_data' old_data (PyArray_SIZE a * elsize maskna_dtype');;
  mret 0.

Definition rank1_strided_cast (w : World) (a : PyArrayObject_fieldaccess)
    (maskna_dtype' : PyArray_Descr) (maskna_data' : ptr) : M Z :=
  old_stride ← defined (maskna_strides a !! 0%nat);
  old_data ← defined (maskna_data a);
  count ← defined (dimensions a !! 0%nat);
  old_dtype ← defined (maskna_dtype a);
  PyArray_CastRawArrays w count old_data maskna_data'
    old_stride (elsize maskna_dtype') old_dtype maskna_dtype'.

(** The contents of the new buffer after one of them has run on a fresh
    allocation. *)
Definition rank1_buffer_after (w : World) (s : state) (d : PyArray_Descr)
    (fill : PyArray_Descr → ptr → M Z) : option (list Z) :=
  '(p, s1) ← PyArray_malloc w (PyArray_SIZE (fa s) * elsize d) s;
  p ← p;
  '(_, s2) ← fill d p s1;
  b ← mem s2 !! blk p; b.

(** ** Sample arrays, worlds and states *)

Definition float64 : PyArray_Descr :=
  {| type_num := NPY_DOUBLE; elsize := 8; names := None |}.

Definition record_xy : PyArray_Descr :=
  {| type_num := NPY_VOID; elsize := 16; names := Some ["x"; "y"]%string |}.

Definition bool_descr : PyArray_Descr :=
  {| type_num := NPY_BOOL; elsize := 1; names := None |}.

Definition mask_descr : PyArray_Descr :=
  {| type_num := NPY_MASK; elsize := 1; names := None |}.

(** Every collaborator succeeds; fresh memory holds the byte 170. *)
Definition world_ok : World :=
  {| descr_available := true; malloc_succeeds := true;
     cast_succeeds := true; junk := λ _, 170 |}.

Definition world_no_memory : World :=
  {| descr_available := true; malloc_succeeds := false;
     cast_succeeds := true; junk := λ _, 170 |}.

(** A 2x3 array of doubles in row-major order, without a mask. *)
Definition arr_2x3 : PyArrayObject_fieldaccess :=
  {| nd := 2; dimensions := [2; 3]; strides := [24; 8]; descr := float64;
     flags := 0; maskna_dtype := None; maskna_data := None;
     maskna_strides := [0; 0] |}.

(** A 2x3x4 array of doubles in column-major order, without a mask. *)
Definition arr_2x3x4_F : PyArrayObject_fieldaccess :=
  {| nd := 3; dimensions := [2; 3; 4]; strides := [8; 16; 48];
     descr := float64; flags := 0; maskna_dtype := None;
     maskna_data := None; maskna_strides := [0; 0; 0] |}.

(** An empty 2x0x3 array of doubles, without a mask. *)
Definition arr_2x0x3 : PyArrayObject_fieldaccess :=
  {| nd := 3; dimensions := [2; 0; 3]; strides := [48; 24; 8];
     descr := float64; flags := 0; maskna_dtype := None;
     maskna_data := None; maskna_strides := [0; 0; 0] |}.

(** An empty array whose two other extents are 2^32 each: no element, but
    the product of the extents that the stride loop forms on its way is
    2^64. *)
Definition arr_0x2p32x2p32 : PyArrayObject_fieldaccess :=
  {| nd := 3; dimensions := [0; 4294967296; 4294967296];
     strides := [24; 16; 8];
     descr := float64; flags := 0; maskna_dtype := None;
     maskna_data := None; maskna_strides := [0; 0; 0] |}.

(** The same extents with the empty axis last, in row-major order. *)
Definition arr_2p32x2p32x0 : PyArrayObject_fieldaccess :=
  {| nd := 3; dimensions := [4294967296; 4294967296; 0];
     strides := [34359738368; 8; 8];
     descr := float64; flags := 0; maskna_dtype := None;
     maskna_data := None; maskna_strides := [0; 0; 0] |}.

(** A vector of two doubles that borrows a MultiNA mask living in block
    0; its first element carries the code 2, its second is NA. *)
Definition arr_borrowed : PyArrayObject_fieldaccess :=
  {| nd := 1; dimensions := [2]; strides := [8]; descr := float64;
     flags := NPY_ARRAY_MASKNA; maskna_dtype := Some mask_descr;
     maskna_data := Some {| blk := 0; ofs := 0 |}; maskna_strides := [1] |}.

Definition st_borrowed : state :=
  {| fa := arr_borrowed; mem := [Some [2; 0]]; pyerr := None |}.

(** A vector of two doubles that owns a Boolean mask. *)
Definition arr_owned : PyArrayObject_fieldaccess :=
  {| nd := 1; dimensions := [2]; strides := [8]; descr := float64;
     flags := Z.lor NPY_ARRAY_MASKNA NPY_ARRAY_OWNMASKNA;
     maskna_dtype := Some bool_descr;
     maskna_data := Some {| blk := 0; ofs := 0 |}; maskna_strides := [1] |}.

Definition st_owned : state :=
  {| fa := arr_owned; mem := [Some [1; 0]]; pyerr := None |}.

(** A vector of two records, without a mask. *)
Definition arr_fields : PyArrayObject_fieldaccess :=
  {| nd := 1; dimensions := [2]; strides := [16]; descr := record_xy;
     flags := 0; maskna_dtype := None; maskna_data := None;
     maskna_strides := [0] |}.

(** A vector of two records that owns a Boolean mask. *)
Definition arr_fields_owned : PyArrayObject_fieldaccess :=
  {| nd := 1; dimensions := [2]; strides := [16]; descr := record_xy;
     flags := Z.lor NPY_ARRAY_MASKNA NPY_ARRAY_OWNMASKNA;
     maskna_dtype := Some bool_descr;
     maskna_data := Some {| blk := 0; ofs := 0 |}; maskna_strides := [1] |}.

(** A 2x3x4 array in column-major order that borrows a MultiNA mask
    traversed backwards: the mask of element (i,j,k) is the byte at
    23 - 12 i - 4 j - k of block 0. *)
Definition arr_2x3x4_borrowed : PyArrayObject_fieldaccess :=
  {| nd := 3; dimensions := [2; 3; 4]; strides := [8; 16; 48];
     descr := float64; flags := NPY_ARRAY_MASKNA;
     maskna_dtype := Some mask_descr;
     maskna_data := Some {| blk := 0; ofs := 23 |};
     maskna_strides := [-12; -4; -1] |}.

Definition st_2x3x4_borrowed : state :=
  {| fa := arr_2x3x4_borrowed;
     mem := [Some [0; 1; 2; 3; 4; 5; 6; 7; 0; 1; 2; 3;
                   4; 5; 6; 7; 0; 1; 2; 3; 4; 5; 6; 7]];
     pyerr := None |}.

Definition fresh (a : PyArrayObject_fieldaccess) : state :=
  {| fa := a; mem := []; pyerr := None |}.

Definition st_no_memory : state :=
  {| fa := arr_2x3; mem := []; pyerr := Some PyExc_MemoryError |}.

Definition st_borrowed_migrated : state :=
  {| fa := installed arr_borrowed bool_descr {| blk := 1; ofs := 0 |} [1];
     mem := [Some [2; 0]; Some [2; 0]]; pyerr := None |}.

Definition st_2x3x4_F_masked : state :=
  {| fa := installed arr_2x3x4_F bool_descr {| blk := 0; ofs := 0 |} [1; 2; 6];
     mem := [Some (replicate 24 1)]; pyerr := None |}.

(** A 2x2 view that repeats one row (data stride 0 on the first axis)
    and runs backwards along the second. *)
Definition arr_broadcast : PyArrayObject_fieldaccess :=
  {| nd := 2; dimensions := [2; 2]; strides := [0; -8]; descr := float64;
     flags := 0; maskna_dtype := None; maskna_data := None;
     maskna_strides := [0; 0] |}.

Definition st_broadcast_masked : state :=
  {| fa := installed arr_broadcast mask_descr {| blk := 0; ofs := 0 |} [1; 2];
     mem := [Some (replicate 4 1)]; pyerr := None |}.

Definition st_2x3x4_migrated : state :=
  {| fa := installed arr_2x3x4_borrowed bool_descr {| blk := 1; ofs := 0 |}
             [1; 2; 6];
     mem := [Some [0; 1; 2; 3; 4; 5; 6; 7; 0; 1; 2; 3;
                   4; 5; 6; 7; 0; 1; 2; 3; 4; 5; 6; 7];
             Some [1; 1; 1; 1; 1; 1; 1; 1; 1; 1; 1; 1;
                   1; 1; 1; 1; 1; 1; 1; 0; 0; 1; 1; 0]];
     pyerr := None |}.

(** The cast machinery fails, everything else succeeds. *)
Definition world_no_cast : World :=
  {| descr_available := true; malloc_succeeds := true;
     cast_succeeds := false; junk := λ _, 170 |}.

(** [st_2x3x4_borrowed] after a migration whose cast failed: the new
    block has been freed. *)
Definition st_2x3x4_cast_failed : state :=
  {| fa := arr_2x3x4_borrowed;
     mem := [Some [0; 1; 2; 3; 4; 5; 6; 7; 0; 1; 2; 3;
                   4; 5; 6; 7; 0; 1; 2; 3; 4; 5; 6; 7];
             None];
     pyerr := Some PyExc_FromCollaborator |}.

(** The 2x3 array with a fresh Boolean mask. *)
Definition st_2x3_masked : state :=
  {| fa := installed arr_2x3 bool_descr {| blk := 0; ofs := 0 |} [3; 1];
     mem := [Some [1; 1; 1; 1; 1; 1]]; pyerr := None |}.

(** A permutation of two axes that puts axis 1 first. *)
Definition strideperm_10 : list _npy_stride_sort_item :=
  [{| perm := 1; stride := 24 |}; {| perm := 0; stride := 8 |}].

(** * Proofs *)

(** ** Running the monad *)

Ltac unfold_monad :=
  unfold memcpy, memset, PyArray_free, PyArray_malloc,
    PyArray_DescrFromType, PyErr_NoMemory, PyErr_SetString,
    PyArray_CastRawArrays, PyArray_CastRawNDimArrays, cast_raw,
    install_mask, set_maskna_strides, defined, undefined,
    get_fa, get_mem, put_fa, put_mem, put_err,
    mbind, M_bind, mret, M_ret in *.

Ltac run_cases :=
  repeat (simplify_eq/=;
          match goal with
          | H : context [match ?x with _ => _ end] |- _ =>
              destruct x eqn:?
          | H : context [if ?b then _ else _] |- _ => destruct b eqn:?
          end);
  simplify_eq/=.

Lemma flag_set_lor_l a a' bit c :
  flags a' = Z.lor (flags a) c → Z.land c bit = bit → bit ≠ 0 →
  flag_set a' bit = true.
Proof.
  unfold flag_set. intros -> Hc Hbit.
  rewrite Z.land_lor_distr_l, Hc.
  apply negb_true_iff, Z.eqb_neq. intros H.
  apply Z.lor_eq_0_iff in H. tauto.
Qed.

Section AllocateMaskNA_basic.
Context (w : World) (ownmaskna multina : npy_bool).

Lemma AllocateMaskNA_owned s :
  flag_set (fa s) NPY_ARRAY_OWNMASKNA = true →
  PyArray_AllocateMaskNA w ownmaskna multina s = Some (0, s).
Proof.
  intros H. unfold PyArray_AllocateMaskNA. unfold_monad. by rewrite H.
Qed.

Lemma AllocateMaskNA_borrowed_ok s :
  ownmaskna = false → flag_set (fa s) NPY_ARRAY_MASKNA = true →
  PyArray_AllocateMaskNA w ownmaskna multina s = Some (0, s).
Proof.
  intros -> H. unfold PyArray_AllocateMaskNA. unfold_monad. rewrite H.
  by destruct (flag_set (fa s) NPY_ARRAY_OWNMASKNA).
Qed.

(** The return value is the C convention: 0 or -1. *)
Lemma AllocateMaskNA_result s r s' :
  PyArray_AllocateMaskNA w ownmaskna multina s = Some (r, s') →
  r = 0 ∨ r = -1.
Proof.
  unfold PyArray_AllocateMaskNA. unfold_monad. intros H.
  run_cases; auto.
Qed.

Lemma AllocateMaskNA_failure_fa s s' :
  PyArray_AllocateMaskNA w ownmaskna multina s = Some (-1, s') →
  fa s' = fa s.
Proof.
  unfold PyArray_AllocateMaskNA. unfold_monad. intros H.
  run_cases; auto.
Qed.
End AllocateMaskNA_basic.

(** ** Heap lemmas *)

Lemma ptr_add_0 p : p +ₚ 0 = p.
Proof. destruct p. unfold ptr_add. simpl. f_equal. lia. Qed.

Lemma ptr_add_add p a b : p +ₚ a +ₚ b = p +ₚ (a + b).
Proof. unfold ptr_add. simpl. f_equal. lia. Qed.

Lemma load_Some h p v :
  load h p = Some v ↔
  ∃ data, h !! blk p = Some (Some data) ∧ 0 <= ofs p ∧
          data !! Z.to_nat (ofs p) = Some v.
Proof.
  unfold load. split.
  - intros H. destruct (h !! blk p) as [[data|]|]; simplify_eq/=.
    case_bool_decide; simplify_eq/=. eauto.
  - intros (data & -> & ? & ?). simpl. by rewrite bool_decide_true.
Qed.

Lemma store_Some h p v h' :
  store h p v = Some h' ↔
  ∃ data, h !! blk p = Some (Some data) ∧
          0 <= ofs p < Z.of_nat (length data) ∧
          h' = <[blk p := Some (<[Z.to_nat (ofs p) := v]> data)]> h.
Proof.
  unfold store. split.
  - intros H. destruct (h !! blk p) as [[data|]|]; simplify_eq/=.
    case_bool_decide; simplify_eq/=. eauto.
  - intros (data & -> & ? & ->). simpl. by rewrite bool_decide_true.
Qed.

Lemma store_length h p v h' : store h p v = Some h' → length h' = length h.
Proof. intros (? & ? & ? & ->)%store_Some. by rewrite length_insert. Qed.

Lemma store_take h p v h' n :
  store h p v = Some h' → (n ≤ blk p)%nat → take n h' = take n h.
Proof. intros (? & ? & ? & ->)%store_Some ?. by apply take_insert_ge. Qed.

Lemma load_store_eq h p v h' : store h p v = Some h' → load h' p = Some v.
Proof.
  intros (data & Hb & ? & ->)%store_Some. apply load_Some.
  exists (<[Z.to_nat (ofs p) := v]> data). split_and!; [|lia|].
  - apply list_lookup_insert_eq. by eapply lookup_lt_Some.
  - apply list_lookup_insert_eq. lia.
Qed.

Lemma load_store_ne h p v h' p' :
  store h p v = Some h' → p' ≠ p → load h' p' = load h p'.
Proof.
  intros (data & Hb & ? & ->)%store_Some Hne. unfold load.
  destruct (decide (blk p' = blk p)) as [Heq|Hblk].
  - rewrite Heq, list_lookup_insert_eq, Hb by (by eapply lookup_lt_Some).
    simpl. case_bool_decide; [|done].
    apply list_lookup_insert_ne. intros Hofs.
    destruct p, p'; simplify_eq/=. apply Hne. f_equal. lia.
  - by rewrite list_lookup_insert_ne.
Qed.

Lemma load_take h p n :
  (blk p < n)%nat → load (take n h) p = load h p.
Proof. intros ?. unfold load. by rewrite lookup_take_lt. Qed.

Lemma load_lt_length h p v : load h p = Some v → (blk p < length h)%nat.
Proof. intros (? & ? & _)%load_Some. by eapply lookup_lt_Some. Qed.

Lemma store_range_take h p vs h' n :
  store_range h p vs = Some h' → (n ≤ blk p)%nat → take n h' = take n h.
Proof.
  revert h p. induction vs as [|v vs IH]; intros h p H ?; simplify_eq/=; [done|].
  destruct (store h p v) as [h1|] eqn:Hst; simplify_eq/=.
  erewrite IH; [|done..]. by eapply store_take.
Qed.

(** Writing a range into a live block replaces that slice of the block. *)
Lemma store_range_block h b o data vs :
  h !! b = Some (Some data) →
  (o + length vs ≤ length data)%nat →
  store_range h {| blk := b; ofs := Z.of_nat o |} vs =
    Some (<[b := Some (take o data ++ vs ++ drop (o + length vs) data)]> h).
Proof.
  revert h o data. induction vs as [|v vs IH]; intros h o data Hb Hlen; simpl in *.
  - rewrite Nat.add_0_r, take_drop. f_equal. symmetry. by apply list_insert_id.
  - unfold store; simpl. rewrite Hb; simpl.
    rewrite bool_decide_true by lia. simpl.
    rewrite Nat2Z.id.
    unfold ptr_add; simpl.
    replace (Z.of_nat o + 1) with (Z.of_nat (S o)) by lia.
    rewrite (IH _ (S o) (<[o:=v]> data)).
    + rewrite list_insert_insert_eq. do 3 f_equal.
      rewrite (take_S_r _ _ v) by (apply list_lookup_insert_eq; lia).
      rewrite take_insert_ge by lia.
      rewrite drop_insert_lt by lia.
      rewrite <-(assoc_L (++)). simpl. by rewrite Nat.add_succ_r.
    + apply list_lookup_insert_eq. by eapply lookup_lt_Some.
    + rewrite length_insert. lia.
Qed.

Lemma load_range_Some h p n vs :
  load_range h p n = Some vs →
  length vs = n ∧ ∀ k, (k < n)%nat → load h (p +ₚ Z.of_nat k) = vs !! k.
Proof.
  revert p vs. induction n as [|n IH]; intros p vs H; simplify_eq/=.
  { split; [done|lia]. }
  destruct (load h p) as [v|] eqn:Hl; simplify_eq/=.
  destruct (load_range h (p +ₚ 1) n) as [vs'|] eqn:Hr; simplify_eq/=.
  destruct (IH _ _ Hr) as [Hlen Hk]. split; [by rewrite Hlen|].
  intros [|k] ?; simpl.
  - by rewrite ptr_add_0.
  - rewrite <-Hk by lia. rewrite ptr_add_add. do 2 f_equal. lia.
Qed.

Lemma load_range_is_Some h p n :
  (∀ k, (k < n)%nat → is_Some (load h (p +ₚ Z.of_nat k))) →
  is_Some (load_range h p n).
Proof.
  revert p. induction n as [|n IH]; intros p H; simpl; [by eexists|].
  destruct (H 0%nat) as [v Hv]; [lia|]. rewrite ptr_add_0 in Hv. rewrite Hv. simpl.
  destruct (IH (p +ₚ 1)) as [vs Hvs].
  - intros k ?. rewrite ptr_add_add.
    replace (1 + Z.of_nat k) with (Z.of_nat (S k)) by lia. apply H. lia.
  - rewrite Hvs. by eexists.
Qed.

Lemma store_is_Some h p v : is_Some (load h p) → is_Some (store h p v).
Proof.
  intros [u (data & Hb & ? & Hu)%load_Some].
  apply lookup_lt_Some in Hu.
  eexists. apply store_Some. exists data. split_and!; [done|lia..|done].
Qed.

Lemma load_store_is_Some h p v h' p' :
  store h p v = Some h' → is_Some (load h p') → is_Some (load h' p').
Proof.
  intros Hst Hp'. destruct (decide (p' = p)) as [->|Hne].
  - erewrite load_store_eq; [by eexists|done].
  - by erewrite load_store_ne.
Qed.

(** ** The element loop of the casts *)

Section cast_loop.
Context (src_t dst_t : NPY_TYPES) (src dst : ptr).
Hypothesis Hblk : blk src ≠ blk dst.

Lemma cast_loop_take offs h h' n :
  cast_loop src_t dst_t src dst offs h = Some h' →
  (n ≤ blk dst)%nat → take n h' = take n h.
Proof.
  revert h. induction offs as [|[so do] offs IH]; intros h H ?; simplify_eq/=; [done|].
  destruct (load h (src +ₚ so)) as [v|]; simplify_eq/=.
  destruct (store h (dst +ₚ do) _) as [h1|] eqn:Hst; simplify_eq/=.
  rewrite (IH h1) by done. by eapply store_take.
Qed.

Lemma cast_loop_frame offs h h' p :
  cast_loop src_t dst_t src dst offs h = Some h' →
  (∀ so do, (so, do) ∈ offs → p ≠ dst +ₚ do) →
  load h' p = load h p.
Proof.
  revert h. induction offs as [|[so do] offs IH]; intros h H Hp; simplify_eq/=; [done|].
  destruct (load h (src +ₚ so)) as [v|]; simplify_eq/=.
  destruct (store h (dst +ₚ do) _) as [h1|] eqn:Hst; simplify_eq/=.
  rewrite (IH h1); [|done|].
  - eapply load_store_ne; [done|]. eapply Hp. left.
  - intros ?? Hin. eapply Hp. by right.
Qed.

Lemma cast_loop_src offs h h' p :
  cast_loop src_t dst_t src dst offs h = Some h' →
  blk p ≠ blk dst → load h' p = load h p.
Proof.
  intros H ?. eapply cast_loop_frame; [done|].
  intros ?? _ ->. done.
Qed.

(** Every element of the source is cast into its place, provided no
    two elements share a destination. *)
Lemma cast_loop_spec offs h h' so do :
  cast_loop src_t dst_t src dst offs h = Some h' →
  NoDup offs.*2 → (so, do) ∈ offs →
  ∃ v, load h (src +ₚ so) = Some v ∧
       load h' (dst +ₚ do) = Some (cast_value src_t dst_t v).
Proof.
  revert h. induction offs as [|[so' do'] offs IH]; intros h H Hnd Hin.
  { by apply elem_of_nil in Hin. }
  simpl in H, Hnd. apply NoDup_cons in Hnd as [Hnotin Hnd].
  destruct (load h (src +ₚ so')) as [v|] eqn:Hl; simplify_eq/=.
  destruct (store h (dst +ₚ do') _) as [h1|] eqn:Hst; simplify_eq/=.
  apply elem_of_cons in Hin as [[= -> ->]|Hin].
  - exists v. split; [done|].
    erewrite cast_loop_frame; [by eapply load_store_eq|done|].
    intros so2 do2 Hin2 Heq. apply Hnotin.
    apply list_elem_of_fmap. exists (so2, do2). split; [|done].
    simpl. destruct dst. unfold ptr_add in Heq. simplify_eq/=. lia.
  - destruct (IH h1 H Hnd Hin) as (u & Hu & Hres).
    exists u. split; [|done].
    rewrite <-Hu. symmetry. eapply load_store_ne; [done|].
    intros Heq. apply Hblk. exact (f_equal blk Heq).
Qed.

(** The loop does not fault when every source cell can be read and
    every destination cell can be written. *)
Lemma cast_loop_is_Some offs h :
  (∀ so do, (so, do) ∈ offs →
     is_Some (load h (src +ₚ so)) ∧ is_Some (load h (dst +ₚ do))) →
  is_Some (cast_loop src_t dst_t src dst offs h).
Proof.
  revert h. induction offs as [|[so do] offs IH]; intros h H; simpl; [by eexists|].
  destruct (H so do) as [[v Hv] Hw]; [by left|]. rewrite Hv. simpl.
  destruct (store_is_Some h (dst +ₚ do) (cast_value src_t dst_t v) Hw)
    as [h1 Hst].
  rewrite Hst. simpl. apply IH. intros so' do' Hin.
  destruct (H so' do') as [Hr Hw']; [by right|].
  split; by eapply load_store_is_Some.
Qed.
End cast_loop.

(** ** Multi-indices and sums *)

#[global] Instance Zsum_Permutation : Proper ((≡ₚ) ==> (=)) Zsum.
Proof.
  intros l k H. unfold Zsum. induction H; simpl; lia.
Qed.

#[global] Instance Zprod_Permutation : Proper ((≡ₚ) ==> (=)) Zprod.
Proof.
  intros l k H. unfold Zprod. induction H; simpl; [lia|congruence|lia|lia].
Qed.

Lemma Zprod_nonneg l : Forall (λ n, 0 <= n) l → 0 <= Zprod l.
Proof. induction 1; unfold Zprod in *; simpl; lia. Qed.

Lemma Zprod_pos l : Forall (λ n, 1 <= n) l → 1 <= Zprod l.
Proof. induction 1; unfold Zprod in *; simpl; nia. Qed.

Lemma PyArray_SIZE_Zprod a :
  PyArray_SIZE a = Zprod (take (nd a) (dimensions a)).
Proof. done. Qed.

Lemma lookup_total_seq_id (l : list Z) :
  (λ ax : nat, l !!! ax) <$> seq 0 (length l) = l.
Proof.
  apply list_eq. intros i. rewrite list_lookup_fmap.
  destruct (decide (i < length l)%nat).
  - rewrite lookup_seq_lt by done. simpl.
    symmetry. by apply list_lookup_lookup_total_lt.
  - rewrite !lookup_ge_None_2; [done|lia|rewrite length_seq; lia].
Qed.

Lemma elem_of_indices shape idx :
  idx ∈ indices shape ↔ Forall2 (λ i n, 0 <= i < n) idx shape.
Proof.
  revert idx. induction shape as [|n shape IH]; intros idx; simpl.
  - rewrite list_elem_of_singleton. split; [by intros ->|].
    by intros ->%Forall2_nil_inv_r.
  - rewrite list_elem_of_bind. split.
    + intros (i & (idx' & -> & Hidx')%list_elem_of_fmap & Hi%elem_of_seqZ).
      constructor; [lia|]. by apply IH.
    + intros (i & idx' & Hi & Hidx' & ->)%Forall2_cons_inv_r.
      exists i. split; [|apply elem_of_seqZ; lia].
      apply list_elem_of_fmap. exists idx'. split; [done|]. by apply IH.
Qed.

Lemma NoDup_indices shape : NoDup (indices shape).
Proof.
  induction shape as [|n shape IH]; simpl.
  - apply NoDup_singleton.
  - apply NoDup_bind.
    + intros i j idx _ _ (?&?&?)%list_elem_of_fmap (?&?&?)%list_elem_of_fmap.
      congruence.
    + intros i _. apply NoDup_fmap_2; [|done]. by intros ?? [=].
    + apply NoDup_seqZ.
Qed.

Lemma indices_length shape idx : idx ∈ indices shape → length idx = length shape.
Proof. intros ?%elem_of_indices. by eapply Forall2_length. Qed.

Lemma indices_bounds shape idx ax :
  idx ∈ indices shape → (ax < length shape)%nat →
  0 <= idx !!! ax < shape !!! ax.
Proof.
  intros Hin%elem_of_indices Hax.
  destruct (lookup_lt_is_Some_2 shape ax Hax) as [n Hn].
  destruct (Forall2_lookup_r _ _ _ _ _ Hin Hn) as (i & Hi & ?).
  by rewrite (list_lookup_total_correct _ _ _ Hi),
             (list_lookup_total_correct _ _ _ Hn).
Qed.

(** The byte offset is the sum over the axes of index times stride. *)
Lemma offset_Zsum idx strides :
  (length idx ≤ length strides)%nat →
  offset idx strides =
    Zsum ((λ ax : nat, idx !!! ax * strides !!! ax) <$> seq 0 (length idx)).
Proof.
  revert strides. induction idx as [|i idx IH]; intros [|s strides] Hlen;
    simpl in *; try done; try lia.
  rewrite IH by lia. unfold Zsum at 2. simpl. f_equal.
  rewrite <-fmap_S_seq, <-list_fmap_compose. done.
Qed.

Lemma offset_take idx strides n :
  (length idx ≤ n)%nat → offset idx (take n strides) = offset idx strides.
Proof.
  revert strides n. induction idx as [|i idx IH]; intros [|s strides] [|n] Hlen;
    simpl in *; try done; try lia.
  rewrite IH by lia. done.
Qed.

(** ** The stride loop *)

Lemma intp_mul_Some x y z :
  intp_mul x y = Some z ↔ z = x * y ∧ intp_fits (x * y).
Proof.
  unfold intp_mul. case_bool_decide; split; intros H'; simplify_eq/=;
    try done; by destruct H' as [-> ?].
Qed.

Lemma products_fit_nil shape stride : products_fit [] shape stride.
Proof. intros k Hk. simpl in Hk. lia. Qed.

Lemma products_fit_cons ax rest shape stride :
  products_fit (ax :: rest) shape stride ↔
  intp_fits (stride * shape !!! ax) ∧
  products_fit rest shape (stride * shape !!! ax).
Proof.
  unfold products_fit, extents, Zprod. split.
  - intros H. split.
    + specialize (H 0%nat). simpl in H.
      replace (stride * shape !!! ax) with (stride * (shape !!! ax * 1))
        by lia.
      apply H. lia.
    + intros k Hk. specialize (H (S k)). simpl in H.
      rewrite <-Z.mul_assoc. apply H. lia.
  - intros [H0 H] [|k] Hk; simpl in *.
    + replace (stride * (shape !!! ax * 1)) with (stride * shape !!! ax)
        by lia.
      done.
    + rewrite Z.mul_assoc. apply H. lia.
Qed.

(** The loop of the source computes what [assign_strides] does, and is
    defined exactly when it stays inside its arrays and every product it
    forms fits [npy_intp]. *)
Lemma fill_maskna_strides_assign left strideperm shape stride ms ms' :
  fill_maskna_strides left strideperm shape stride ms = Some ms' →
  assign_strides (reverse (perm <$> take left strideperm)) shape stride ms
    = Some ms' ∧
  products_fit (reverse (perm <$> take left strideperm)) shape stride.
Proof.
  revert stride ms. induction left as [|i IH]; intros stride ms H.
  { rewrite take_0. simpl in *. split; [done|apply products_fit_nil]. }
  simpl in H. destruct (strideperm !! i) as [it|] eqn:Hit; [|done].
  simpl in H. case_bool_decide; [|done].
  destruct (shape !! perm it) as [n|] eqn:Hn; [|done]. simpl in H.
  destruct (intp_mul stride n) as [stride'|] eqn:Hmul; [|done]. simpl in H.
  apply intp_mul_Some in Hmul as [-> Hfit].
  apply IH in H as [Ha Hf].
  rewrite (take_S_r _ _ _ Hit), fmap_app, reverse_app. simpl.
  rewrite bool_decide_true by done. rewrite Hn. simpl.
  split; [done|]. apply products_fit_cons.
  by rewrite (list_lookup_total_correct _ _ _ Hn).
Qed.

Lemma fill_maskna_strides_of_assign left strideperm shape stride ms ms' :
  (left ≤ length strideperm)%nat →
  assign_strides (reverse (perm <$> take left strideperm)) shape stride ms
    = Some ms' →
  products_fit (reverse (perm <$> take left strideperm)) shape stride →
  fill_maskna_strides left strideperm shape stride ms = Some ms'.
Proof.
  revert stride ms. induction left as [|i IH]; intros stride ms Hlen.
  { by rewrite take_0. }
  destruct (lookup_lt_is_Some_2 strideperm i) as [it Hit]; [lia|].
  rewrite (take_S_r _ _ _ Hit), fmap_app, reverse_app. simpl.
  rewrite Hit. simpl. case_bool_decide; [|done].
  destruct (shape !! perm it) as [n|] eqn:Hn; [|done]. simpl.
  rewrite products_fit_cons, (list_lookup_total_correct _ _ _ Hn).
  intros Ha [Hfit Hf]. unfold intp_mul. rewrite bool_decide_true by done.
  simpl. apply IH; [lia|done..].
Qed.

Lemma Zprod_filter_pos l :
  Forall (λ n, 0 <= n) l → 1 <= Zprod (filter (λ n, n ≠ 0) l).
Proof.
  induction 1 as [|n l Hn _ IH]; [done|].
  rewrite filter_cons. case_decide; [|done].
  unfold Zprod in *. simpl. nia.
Qed.

(** No product overflows when the first stride times the product of the
    non-zero extents fits: a running product is zero from the first zero
    extent on, and only grows before. *)
Lemma products_fit_bound order shape stride :
  0 <= stride → Forall (λ n, 0 <= n) (extents shape order) →
  stride * Zprod (filter (λ n, n ≠ 0) (extents shape order))
    <= NPY_MAX_INTP →
  products_fit order shape stride.
Proof.
  revert stride. induction order as [|ax rest IH]; intros stride Hs Hnn Hb.
  { apply products_fit_nil. }
  unfold extents in Hnn, Hb. rewrite fmap_cons in Hnn, Hb.
  apply Forall_cons in Hnn as [Hn Hnn].
  pose proof (Zprod_filter_pos _ Hnn) as Hpos.
  rewrite filter_cons in Hb. apply products_fit_cons.
  unfold intp_fits, NPY_MIN_INTP in *. case_decide as Hz.
  - unfold Zprod in Hb, Hpos. simpl in Hb. fold (Zprod) in Hb.
    split; [nia|]. apply IH; [nia|done|].
    unfold extents, Zprod in *. nia.
  - assert (shape !!! ax = 0) as -> by lia.
    rewrite Z.mul_0_r. split; [unfold NPY_MAX_INTP; lia|].
    apply IH; [lia|done|]. unfold NPY_MAX_INTP. lia.
Qed.

Section assign_strides.
Context (shape : list npy_intp).

Lemma assign_strides_length order stride ms ms' :
  assign_strides order shape stride ms = Some ms' → length ms' = length ms.
Proof.
  revert stride ms. induction order as [|ax rest IH]; intros stride ms H;
    simplify_eq/=; [done|].
  case_bool_decide; [|done].
  destruct (shape !! ax); simplify_eq/=.
  apply IH in H. by rewrite length_insert in H.
Qed.

Lemma assign_strides_other order stride ms ms' ax :
  assign_strides order shape stride ms = Some ms' → ax ∉ order →
  ms' !! ax = ms !! ax.
Proof.
  revert stride ms. induction order as [|ax' rest IH]; intros stride ms H Hnotin;
    simplify_eq/=; [done|].
  case_bool_decide; [|done].
  destruct (shape !! ax'); simplify_eq/=.
  apply not_elem_of_cons in Hnotin as [? ?].
  rewrite (IH _ _ H) by done. by apply list_lookup_insert_ne.
Qed.

(** The axis visited at iteration [k] gets the element size times the
    extents of the axes visited before it. *)
Lemma assign_strides_lookup order stride ms ms' k ax :
  assign_strides order shape stride ms = Some ms' → NoDup order →
  order !! k = Some ax →
  ms' !! ax = Some (stride * Zprod (extents shape (take k order))).
Proof.
  revert stride ms k. induction order as [|ax' rest IH]; intros stride ms k H Hnd Hk;
    simplify_eq/=.
  case_bool_decide; [|done].
  destruct (shape !! ax') as [n|] eqn:Hn; simplify_eq/=.
  apply NoDup_cons in Hnd as [Hnotin Hnd].
  destruct k as [|k]; simplify_eq/=.
  - rewrite (assign_strides_other _ _ _ _ _ H Hnotin).
    rewrite list_lookup_insert_eq by done. f_equal. unfold Zprod. simpl. lia.
  - rewrite (IH _ _ _ H Hnd Hk). f_equal.
    unfold Zprod, extents. simpl.
    rewrite (list_lookup_total_correct _ _ _ Hn). lia.
Qed.

Lemma assign_strides_is_Some order stride ms :
  (∀ ax, ax ∈ order → (ax < length ms)%nat ∧ (ax < length shape)%nat) →
  is_Some (assign_strides order shape stride ms).
Proof.
  revert stride ms. induction order as [|ax rest IH]; intros stride ms H; simpl.
  { by eexists. }
  destruct (H ax) as [? Hs]; [by left|].
  rewrite bool_decide_true by done.
  destruct (lookup_lt_is_Some_2 _ _ Hs) as [n ->]. simpl.
  apply IH. intros ax' Hin. rewrite length_insert. apply H. by right.
Qed.

Lemma assign_strides_radix order stride ms ms' idx :
  assign_strides order shape stride ms = Some ms' → NoDup order →
  Zsum ((λ ax : nat, idx !!! ax * ms' !!! ax) <$> order) =
    stride * radix_value shape order idx.
Proof.
  revert stride ms. induction order as [|ax rest IH]; intros stride ms H Hnd.
  { unfold Zsum. simpl. lia. }
  pose proof (assign_strides_lookup _ _ _ _ 0%nat ax H Hnd eq_refl) as Hax.
  simpl in H. case_bool_decide; [|done].
  destruct (shape !! ax) as [n|] eqn:Hn; simplify_eq/=.
  apply NoDup_cons in Hnd as [Hnotin Hnd].
  unfold Zsum in *. simpl. rewrite (IH _ _ H Hnd).
  rewrite (list_lookup_total_correct _ _ _ Hax),
          (list_lookup_total_correct _ _ _ Hn).
  unfold Zprod. simpl. lia.
Qed.

Lemma radix_value_bounds order idx :
  (∀ ax, ax ∈ order → 0 <= idx !!! ax < shape !!! ax) →
  0 <= radix_value shape order idx < Zprod (extents shape order).
Proof.
  induction order as [|ax rest IH]; intros H; unfold Zprod in *; simpl; [lia|].
  pose proof (H ax (list_elem_of_here _ _)).
  destruct IH as [? ?]; [intros; apply H; by right|]. nia.
Qed.

Lemma radix_value_inj order idx idx' :
  (∀ ax, ax ∈ order → 0 <= idx !!! ax < shape !!! ax) →
  (∀ ax, ax ∈ order → 0 <= idx' !!! ax < shape !!! ax) →
  radix_value shape order idx = radix_value shape order idx' →
  ∀ ax, ax ∈ order → idx !!! ax = idx' !!! ax.
Proof.
  induction order as [|ax rest IH]; intros H H' Heq ax' Hin.
  { by apply elem_of_nil in Hin. }
  simpl in Heq.
  pose proof (H ax (list_elem_of_here _ _)).
  pose proof (H' ax (list_elem_of_here _ _)).
  assert (radix_value shape rest idx = radix_value shape rest idx') as Hrest by nia.
  apply elem_of_cons in Hin as [->|Hin]; [nia|].
  apply IH; [intros; apply H; by right|intros; apply H'; by right|done..].
Qed.
End assign_strides.

(** ** The stride-sorted permutation *)

#[global] Instance stride_ge_trans : Transitive stride_ge.
Proof. unfold stride_ge. intros a b c. lia. Qed.

Lemma item_before_true a b : item_before a b = true → stride_ge a b.
Proof.
  unfold item_before, stride_ge.
  repeat case_bool_decide; intros; simplify_eq; lia.
Qed.

Lemma item_before_false a b : item_before a b = false → stride_ge b a.
Proof.
  unfold item_before, stride_ge.
  repeat case_bool_decide; intros; simplify_eq; lia.
Qed.

Lemma insert_item_Permutation x l : insert_item x l ≡ₚ x :: l.
Proof.
  induction l as [|y l IH]; simpl; [done|].
  destruct (item_before x y); [done|].
  by rewrite IH, Permutation_swap.
Qed.

Lemma insert_item_sorted x l :
  StronglySorted stride_ge l → StronglySorted stride_ge (insert_item x l).
Proof.
  induction 1 as [|y l Hl IH Hy]; simpl.
  { repeat constructor. }
  destruct (item_before x y) eqn:Hxy.
  - apply item_before_true in Hxy.
    constructor; [by constructor|].
    constructor; [done|].
    eapply Forall_impl; [done|]. intros z ?. by trans y.
  - apply item_before_false in Hxy.
    constructor; [done|].
    rewrite insert_item_Permutation. by constructor.
Qed.

Section sorted_perm.
Context (ndim : nat) (strides : list npy_intp).
Let strideperm := PyArray_CreateSortedStridePerm ndim strides.

Lemma CreateSortedStridePerm_items :
  strideperm ≡ₚ
    imap (λ i s, {| perm := i; stride := s |}) (take ndim strides).
Proof.
  unfold strideperm, PyArray_CreateSortedStridePerm.
  induction (imap _ _) as [|x l IH]; simpl; [done|].
  by rewrite insert_item_Permutation, IH.
Qed.

Lemma CreateSortedStridePerm_sorted : StronglySorted stride_ge strideperm.
Proof.
  unfold strideperm, PyArray_CreateSortedStridePerm.
  induction (imap _ _) as [|x l IH]; simpl; [constructor|].
  by apply insert_item_sorted.
Qed.

Lemma CreateSortedStridePerm_perm :
  perm <$> strideperm ≡ₚ seq 0 (length (take ndim strides)).
Proof.
  rewrite CreateSortedStridePerm_items, fmap_imap.
  by rewrite (imap_seq_0 _ (λ i, i)), list_fmap_id.
Qed.

Lemma CreateSortedStridePerm_length :
  length strideperm = length (take ndim strides).
Proof.
  by rewrite <-(length_fmap perm), CreateSortedStridePerm_perm, length_seq.
Qed.

Lemma CreateSortedStridePerm_stride it :
  it ∈ strideperm → take ndim strides !! perm it = Some (stride it).
Proof.
  rewrite CreateSortedStridePerm_items.
  intros (i & s & -> & Hs)%elem_of_lookup_imap. done.
Qed.

Lemma CreateSortedStridePerm_NoDup : NoDup (perm <$> strideperm).
Proof. rewrite CreateSortedStridePerm_perm. apply NoDup_seq. Qed.

(** Items further back have strides no larger in magnitude. *)
Lemma CreateSortedStridePerm_descending i j a b :
  (i ≤ j)%nat → strideperm !! i = Some a → strideperm !! j = Some b →
  Z.abs (stride b) <= Z.abs (stride a).
Proof.
  pose proof CreateSortedStridePerm_sorted as Hs.
  revert i j. induction Hs as [|x l _ IH Hx]; intros i j Hij Ha Hb.
  { by rewrite lookup_nil in Ha. }
  destruct i as [|i], j as [|j]; simplify_eq/=; try lia.
  - rewrite Forall_lookup in Hx. by apply (Hx _ _ Hb).
  - eapply (IH i j); [lia|done..].
Qed.
End sorted_perm.

(** ** What a successful allocation installs *)

Lemma allocates_guard a ownmaskna :
  allocates a ownmaskna →
  flag_set a NPY_ARRAY_OWNMASKNA = false ∧
  negb ownmaskna && flag_set a NPY_ARRAY_MASKNA = false.
Proof. intros [? [->| ->]]; split; try done. by destruct ownmaskna. Qed.

Lemma AllocateMaskNA_success_fa w ownmaskna multina s s' :
  allocates (fa s) ownmaskna →
  PyArray_AllocateMaskNA w ownmaskna multina s = Some (0, s') →
  ∃ l, new_maskna_strides (fa s) 1 = Some l ∧
       fa s' = installed (fa s) (new_dtype multina)
                 {| blk := length (mem s); ofs := 0 |} l ∧
       pyerr s' = pyerr s ∧
       PyArray_HASFIELDS (fa s) = false.
Proof.
  intros [Hown Hreq]%allocates_guard.
  unfold PyArray_AllocateMaskNA. unfold_monad.
  rewrite Hown, Hreq. unfold new_maskna_strides. intros H.
  run_cases; eexists;
    (split; [by repeat (case_bool_decide || simplify_option_eq)|done]).
Qed.

(** ** The layout of the new mask of a well-formed array *)

Section layout.
Context (a : PyArrayObject_fieldaccess) (Hwf : wf_array a).
#[local] Abbreviation strideperm :=
  (PyArray_CreateSortedStridePerm (nd a) (strides a)).

Lemma wf_take_dimensions : take (nd a) (dimensions a) = dimensions a.
Proof. destruct Hwf as (_ & ? & _). apply take_ge. lia. Qed.

Lemma wf_take_strides : take (nd a) (strides a) = strides a.
Proof. destruct Hwf as (_ & _ & ? & _). apply take_ge. lia. Qed.

Lemma wf_strideperm_length : length strideperm = nd a.
Proof.
  rewrite CreateSortedStridePerm_length, wf_take_strides.
  by destruct Hwf as (_ & _ & ? & _).
Qed.

Lemma placement_order_Permutation : placement_order a ≡ₚ seq 0 (nd a).
Proof.
  unfold placement_order. rewrite reverse_Permutation.
  rewrite CreateSortedStridePerm_perm, wf_take_strides.
  by destruct Hwf as (_ & _ & -> & _).
Qed.

Lemma placement_order_NoDup : NoDup (placement_order a).
Proof. rewrite placement_order_Permutation. apply NoDup_seq. Qed.

Lemma placement_order_length : length (placement_order a) = nd a.
Proof. by rewrite placement_order_Permutation, length_seq. Qed.

Lemma elem_of_placement_order ax :
  ax ∈ placement_order a ↔ (ax < nd a)%nat.
Proof. rewrite placement_order_Permutation, elem_of_seq. lia. Qed.

Lemma extents_placement_order :
  Zprod (extents (dimensions a) (placement_order a)) = PyArray_SIZE a.
Proof.
  unfold extents. rewrite placement_order_Permutation.
  rewrite PyArray_SIZE_Zprod, wf_take_dimensions.
  destruct Hwf as (_ & <- & _). by rewrite lookup_total_seq_id.
Qed.

(** The axes are visited by ascending magnitude of their data stride. *)
Lemma placement_order_ascending j k aj ak :
  (j ≤ k)%nat →
  placement_order a !! j = Some aj → placement_order a !! k = Some ak →
  Z.abs (strides a !!! aj) <= Z.abs (strides a !!! ak).
Proof.
  unfold placement_order. intros Hjk.
  rewrite !reverse_lookup_Some, !length_fmap, !list_lookup_fmap.
  intros [(ij & Hij & ->)%fmap_Some ?] [(ik & Hik & ->)%fmap_Some ?].
  pose proof (CreateSortedStridePerm_stride _ _ ij
                (list_elem_of_lookup_2 _ _ _ Hij)) as Hsj.
  pose proof (CreateSortedStridePerm_stride _ _ ik
                (list_elem_of_lookup_2 _ _ _ Hik)) as Hsk.
  rewrite wf_take_strides in Hsj, Hsk.
  rewrite (list_lookup_total_correct _ _ _ Hsj),
          (list_lookup_total_correct _ _ _ Hsk).
  eapply (CreateSortedStridePerm_descending (nd a) (strides a));
    [|exact Hik|exact Hij]. lia.
Qed.

Lemma take_strideperm : take (nd a) strideperm = strideperm.
Proof. apply take_ge. rewrite wf_strideperm_length. lia. Qed.

(** When the stride loop is defined it has computed the strides of
    [assign_strides] along the placement order, and every product it
    formed fits [npy_intp]. *)
Lemma fill_maskna_strides_placement e ms :
  fill_maskna_strides (nd a) strideperm (dimensions a) e
    (replicate NPY_MAXDIMS 0) = Some ms →
  assign_strides (placement_order a) (dimensions a) e
    (replicate NPY_MAXDIMS 0) = Some ms ∧
  products_fit (placement_order a) (dimensions a) e.
Proof.
  intros H%fill_maskna_strides_assign. by rewrite take_strideperm in H.
Qed.

(** The visits of the loop stay inside its arrays. *)
Lemma assign_strides_placement_is_Some e :
  is_Some (assign_strides (placement_order a) (dimensions a) e
             (replicate NPY_MAXDIMS 0)).
Proof.
  apply assign_strides_is_Some.
  intros ax Hax%elem_of_placement_order. rewrite length_replicate.
  destruct Hwf as (? & -> & _). lia.
Qed.

(** The stride loop is defined when its products fit [npy_intp]. *)
Lemma fill_maskna_strides_is_Some e :
  products_fit (placement_order a) (dimensions a) e →
  is_Some (fill_maskna_strides (nd a) strideperm (dimensions a) e
             (replicate NPY_MAXDIMS 0)).
Proof.
  intros Hfit. destruct (assign_strides_placement_is_Some e) as [ms Hms].
  exists ms. apply fill_maskna_strides_of_assign.
  - rewrite wf_strideperm_length. lia.
  - by rewrite take_strideperm.
  - by rewrite take_strideperm.
Qed.

Lemma extents_placement_order_Permutation :
  extents (dimensions a) (placement_order a) ≡ₚ take (nd a) (dimensions a).
Proof.
  unfold extents. rewrite placement_order_Permutation, wf_take_dimensions.
  destruct Hwf as (_ & <- & _). by rewrite lookup_total_seq_id.
Qed.

Lemma Zprod_filter_le l :
  Forall (λ n, 0 <= n) l → 0 <= Zprod l <= Zprod (filter (λ n, n ≠ 0) l).
Proof.
  induction 1 as [|n l Hn Hl IH]; [done|].
  pose proof (Zprod_filter_pos _ Hl).
  rewrite filter_cons. case_decide; unfold Zprod in *; simpl; nia.
Qed.

(** On an array that is not too big the element count fits. *)
Lemma array_fits_SIZE :
  array_fits_intp a → 0 <= PyArray_SIZE a <= NPY_MAX_INTP.
Proof.
  unfold array_fits_intp. rewrite PyArray_SIZE_Zprod. intros Hfit.
  assert (Forall (λ n, 0 <= n) (take (nd a) (dimensions a))) as Hnn.
  { rewrite wf_take_dimensions. by destruct Hwf as (_ & _ & _ & _ & ?). }
  pose proof (Zprod_filter_le _ Hnn). lia.
Qed.

(** On an array that is not too big no product of the loop overflows. *)
Lemma array_fits_products :
  array_fits_intp a → products_fit (placement_order a) (dimensions a) 1.
Proof.
  intros Hfit. apply products_fit_bound; [lia| |].
  - rewrite extents_placement_order_Permutation, wf_take_dimensions.
    by destruct Hwf as (_ & _ & _ & _ & ?).
  - rewrite extents_placement_order_Permutation. unfold array_fits_intp in Hfit.
    lia.
Qed.

(** The products that the loop forms are those of the prefixes of the
    placement order. *)
Lemma products_fit_prefix e k :
  products_fit (placement_order a) (dimensions a) e →
  (0 < k ≤ nd a)%nat →
  intp_fits
    (e * Zprod (extents (dimensions a) (take k (placement_order a)))).
Proof.
  intros Hfit Hk. destruct k as [|k]; [lia|].
  apply Hfit. rewrite placement_order_length. lia.
Qed.

Context (e : npy_intp) (ms : list npy_intp).
Hypothesis Hfill :
  assign_strides (placement_order a) (dimensions a) e
    (replicate NPY_MAXDIMS 0) = Some ms.

Lemma layout_length : length ms = NPY_MAXDIMS.
Proof.
  apply assign_strides_length in Hfill. by rewrite length_replicate in Hfill.
Qed.

Lemma layout_lookup k ax :
  placement_order a !! k = Some ax →
  ms !! ax =
    Some (e * Zprod (extents (dimensions a) (take k (placement_order a)))).
Proof.
  eapply assign_strides_lookup; [done|]. apply placement_order_NoDup.
Qed.

Lemma elements_length idx : idx ∈ elements a → length idx = nd a.
Proof.
  unfold elements. rewrite wf_take_dimensions. intros ->%indices_length.
  by destruct Hwf as (_ & ? & _).
Qed.

Lemma elements_bounds idx ax :
  idx ∈ elements a → (ax < nd a)%nat →
  0 <= idx !!! ax < dimensions a !!! ax.
Proof.
  unfold elements. rewrite wf_take_dimensions. intros Hin ?.
  apply indices_bounds; [done|]. destruct Hwf as (_ & -> & _). done.
Qed.

(** The offset of an element in the new mask is the element size times
    its mixed-radix value. *)
Lemma layout_offset idx :
  idx ∈ elements a →
  offset idx (take (nd a) ms) =
    e * radix_value (dimensions a) (placement_order a) idx.
Proof.
  intros Hidx. pose proof (elements_length _ Hidx) as Hlen.
  rewrite offset_take by lia.
  rewrite offset_Zsum by (rewrite layout_length; destruct Hwf; lia).
  rewrite Hlen, <-placement_order_Permutation.
  eapply assign_strides_radix; [done|]. apply placement_order_NoDup.
Qed.

Lemma layout_bounds idx :
  idx ∈ elements a →
  0 <= radix_value (dimensions a) (placement_order a) idx < PyArray_SIZE a.
Proof.
  intros Hidx. rewrite <-extents_placement_order.
  apply radix_value_bounds. intros ax Hax%elem_of_placement_order.
  by apply elements_bounds.
Qed.

Lemma layout_inj idx idx' :
  idx ∈ elements a → idx' ∈ elements a →
  radix_value (dimensions a) (placement_order a) idx =
  radix_value (dimensions a) (placement_order a) idx' →
  idx = idx'.
Proof.
  intros Hidx Hidx' Heq.
  pose proof (elements_length _ Hidx) as Hlen.
  pose proof (elements_length _ Hidx') as Hlen'.
  apply list_eq. intros ax.
  destruct (decide (ax < nd a)%nat) as [Hax|Hax].
  - rewrite !list_lookup_lookup_total_lt by lia. f_equal.
    eapply radix_value_inj; [| |exact Heq|by apply elem_of_placement_order].
    + intros ax' ?%elem_of_placement_order. by apply elements_bounds.
    + intros ax' ?%elem_of_placement_order. by apply elements_bounds.
  - by rewrite !lookup_ge_None_2 by lia.
Qed.
End layout.

Lemma Zprod_app l k : Zprod (l ++ k) = Zprod l * Zprod k.
Proof. unfold Zprod. induction l; simpl; lia. Qed.

Lemma Forall_extents (P : Z → Prop) shape order :
  Forall P shape → (∀ ax, ax ∈ order → (ax < length shape)%nat) →
  Forall P (extents shape order).
Proof.
  intros HP Hin. unfold extents. apply Forall_fmap, Forall_forall.
  intros ax Hax. simpl. rewrite Forall_lookup in HP.
  eapply HP. apply list_lookup_lookup_total_lt. by apply Hin.
Qed.

Section installed_strides.
Context (a : PyArrayObject_fieldaccess) (Hwf : wf_array a).

(** The three branches install strides when the products of the stride
    loop fit [npy_intp]; ranks 0 and 1 form no product. *)
Lemma new_maskna_strides_is_Some e :
  products_fit (placement_order a) (dimensions a) e →
  is_Some (new_maskna_strides a e).
Proof.
  intros Hfit. unfold new_maskna_strides.
  destruct (fill_maskna_strides_is_Some a Hwf e Hfit) as [ms ->]. simpl.
  by repeat case_bool_decide.
Qed.

Context (e : npy_intp) (l : list npy_intp).
Hypothesis Hl : new_maskna_strides a e = Some l.

(** In every rank the strides that get installed are the first
    [nd] entries that [assign_strides] computes along the placement
    order: ranks 1 and 0 are the degenerate cases of the general rule. *)
Lemma new_maskna_strides_fill :
  ∃ ms,
    assign_strides (placement_order a) (dimensions a) e
      (replicate NPY_MAXDIMS 0) = Some ms ∧
    l = take (nd a) ms.
Proof.
  destruct (assign_strides_placement_is_Some a Hwf e) as [ms Hms].
  exists ms. split; [done|]. unfold new_maskna_strides in Hl.
  pose proof Hwf as (Hmax & Hdims & Hstr & Hmstr & Hnonneg).
  repeat case_bool_decide.
  - simplify_eq/=. destruct (maskna_strides a) as [|x [|??]] eqn:Hold;
      simplify_eq/=; try lia.
    assert (placement_order a !! 0%nat = Some 0%nat) as H0.
    { pose proof (placement_order_Permutation a Hwf) as Hp.
      rewrite H in Hp. simpl in Hp. apply Permutation_singleton_r in Hp.
      by rewrite Hp. }
    pose proof (layout_lookup a Hwf e ms Hms 0%nat 0%nat H0) as Hl.
    rewrite take_0 in Hl. unfold extents, Zprod in Hl. simpl in Hl.
    rewrite H. rewrite (take_S_r _ _ _ Hl). simpl. f_equal. lia.
  - apply bind_Some in Hl as (ms' & Hms' & [= <-]).
    apply (fill_maskna_strides_placement a Hwf) in Hms' as [Hms' _].
    rewrite Hms in Hms'. injection Hms' as <-.
    rewrite drop_ge by lia. by rewrite app_nil_r.
  - simplify_eq/=. assert (nd a = 0%nat) as Hnd by lia. rewrite Hnd in *.
    by destruct (maskna_strides a).
Qed.

(** In the rank >= 2 branch every product of the stride loop fits
    [npy_intp]. *)
Lemma new_maskna_strides_products_fit :
  (1 < nd a)%nat → products_fit (placement_order a) (dimensions a) e.
Proof.
  intros Hnd. unfold new_maskna_strides in Hl.
  rewrite bool_decide_false, bool_decide_true in Hl by lia.
  apply bind_Some in Hl as (ms' & Hms' & _).
  by apply (fill_maskna_strides_placement a Hwf) in Hms' as [_ ?].
Qed.

Lemma new_maskna_strides_length : length l = nd a.
Proof.
  destruct new_maskna_strides_fill as (ms & Hms & ->).
  rewrite length_take, (layout_length a e ms Hms).
  destruct Hwf. lia.
Qed.

Lemma new_maskna_strides_lookup k ax :
  placement_order a !! k = Some ax →
  l !! ax =
    Some (e * Zprod (extents (dimensions a) (take k (placement_order a)))).
Proof.
  intros Hk. destruct new_maskna_strides_fill as (ms & Hms & ->).
  rewrite lookup_take_lt.
  - by eapply layout_lookup.
  - apply (elem_of_placement_order a Hwf). by eapply list_elem_of_lookup_2.
Qed.

Lemma new_maskna_strides_offset idx :
  idx ∈ elements a →
  offset idx (take (nd a) l) =
    e * radix_value (dimensions a) (placement_order a) idx.
Proof.
  intros Hidx. destruct new_maskna_strides_fill as (ms & Hms & ->).
  rewrite take_take, Nat.min_id. by eapply layout_offset.
Qed.

(** The strides that get installed fit [npy_intp]. *)
Lemma new_maskna_strides_fit k :
  intp_fits e → (k < nd a)%nat →
  intp_fits
    (e * Zprod (extents (dimensions a) (take k (placement_order a)))).
Proof.
  intros He Hk. destruct k as [|k].
  { rewrite take_0. unfold extents, Zprod. simpl. by rewrite Z.mul_1_r. }
  apply (products_fit_prefix a Hwf); [|lia].
  apply new_maskna_strides_products_fit. lia.
Qed.

(** Every stride is the element size times a product of extents. *)
Lemma new_maskna_strides_multiple ax :
  intp_fits e → (ax < nd a)%nat →
  ∃ k, l !! ax = Some (k * e) ∧ 0 <= k ∧ intp_fits (k * e) ∧
       (Forall (λ n, 1 <= n) (dimensions a) → 1 <= k).
Proof.
  intros He Hax%(elem_of_placement_order a Hwf).
  apply list_elem_of_lookup in Hax as [k Hk].
  exists (Zprod (extents (dimensions a) (take k (placement_order a)))).
  rewrite (new_maskna_strides_lookup _ _ Hk).
  assert (k < nd a)%nat as Hlt.
  { apply lookup_lt_Some in Hk. by rewrite (placement_order_length a Hwf) in Hk. }
  assert (∀ ax', ax' ∈ take k (placement_order a) →
                 (ax' < length (dimensions a))%nat) as Hin.
  { intros ax' [i Hi%lookup_take_Some]%list_elem_of_lookup.
    destruct Hi as [Hi%list_elem_of_lookup_2 _].
    apply (elem_of_placement_order a Hwf) in Hi.
    destruct Hwf as (_ & -> & _). done. }
  split_and!.
  - f_equal. lia.
  - apply Zprod_nonneg, Forall_extents; [|done]. by destruct Hwf as (_&_&_&_&?).
  - rewrite Z.mul_comm. by apply new_maskna_strides_fit.
  - intros Hpos. by apply Zprod_pos, Forall_extents.
Qed.
End installed_strides.

(** ** Main results: the early exits *)

(** C4. [PyArray_AllocateMaskNA] has two early exits that make it
    idempotent: on an array that already owns its mask it returns
    success and leaves the whole state as it is, whatever [ownmaskna]
    and [multina] are; and on an array that has some mask it does the
    same when [ownmaskna] is false. *)
Theorem AllocateMaskNA_early_exits w ownmaskna multina s :
  ownsMask (fa s) ∨ (ownmaskna = false ∧ hasMask (fa s)) →
  PyArray_AllocateMaskNA w ownmaskna multina s = Some (0, s).
Proof.
  intros [H|[-> H]].
  - by apply AllocateMaskNA_owned.
  - by apply AllocateMaskNA_borrowed_ok.
Qed.

Lemma AllocateMaskNA_early_exits_witness :
  (ownsMask (fa st_owned) ∨ (true = false ∧ hasMask (fa st_owned))) ∧
  PyArray_AllocateMaskNA world_no_memory true true st_owned
    = Some (0, st_owned).
Proof.
  assert (ownsMask (fa st_owned) ∨ (true = false ∧ hasMask (fa st_owned)))
    as H by (left; reflexivity).
  split; [exact H|].
  exact (AllocateMaskNA_early_exits world_no_memory true true st_owned H).
Defined.

(** X13.  A call that succeeded can be repeated with the same
    arguments: the second call returns success and changes nothing. *)
Lemma AllocateMaskNA_twice w ownmaskna multina s s' :
  PyArray_AllocateMaskNA w ownmaskna multina s = Some (0, s') →
  PyArray_AllocateMaskNA w ownmaskna multina s' = Some (0, s').
Proof.
  intros H.
  destruct (flag_set (fa s) NPY_ARRAY_OWNMASKNA) eqn:Hown.
  { rewrite AllocateMaskNA_owned in H by done. simplify_eq.
    by apply AllocateMaskNA_owned. }
  destruct ownmaskna.
  - destruct (AllocateMaskNA_success_fa _ _ _ _ _ (conj Hown (or_introl eq_refl)) H)
      as (l & _ & Hfa & _).
    apply AllocateMaskNA_owned. eapply flag_set_lor_l; [by rewrite Hfa|done..].
  - destruct (flag_set (fa s) NPY_ARRAY_MASKNA) eqn:Hhas.
    + rewrite AllocateMaskNA_borrowed_ok in H by done. simplify_eq.
      by apply AllocateMaskNA_borrowed_ok.
    + destruct (AllocateMaskNA_success_fa _ _ _ _ _ (conj Hown (or_intror Hhas)) H)
        as (l & _ & Hfa & _).
      apply AllocateMaskNA_owned. eapply flag_set_lor_l; [by rewrite Hfa|done..].
Qed.

(** ** Main results: errors *)

(** On every path that returns -1 the error indicator is set, and the
    heap differs from the initial one at most by a block that was
    allocated and released again. *)
Lemma AllocateMaskNA_failure_rest w ownmaskna multina s s' :
  PyArray_AllocateMaskNA w ownmaskna multina s = Some (-1, s') →
  is_Some (pyerr s') ∧ take (length (mem s)) (mem s') = mem s.
Proof.
  unfold PyArray_AllocateMaskNA. unfold_monad. intros H.
  run_cases; (split; [by eexists|]);
    rewrite ?take_ge by lia; try done;
    by rewrite take_insert_ge, take_app_length by lia.
Qed.

(** C2. Whenever [PyArray_AllocateMaskNA] returns an error, the array
    object is exactly what it was before the call: flags (hasMask,
    ownsMask), mask buffer, mask strides and mask element type.  Put the
    other way round, the array is changed only by a call that returns
    success.  The error indicator is then set, and the blocks that were
    on the heap before the call are untouched. *)
Theorem AllocateMaskNA_error_leaves_array w ownmaskna multina s r s' :
  PyArray_AllocateMaskNA w ownmaskna multina s = Some (r, s') →
  (r ≠ 0 →
     r = -1 ∧ fa s' = fa s ∧ is_Some (pyerr s') ∧
     take (length (mem s)) (mem s') = mem s) ∧
  (fa s' ≠ fa s → r = 0).
Proof.
  intros H.
  assert (r ≠ 0 → r = -1 ∧ fa s' = fa s ∧ is_Some (pyerr s') ∧
                  take (length (mem s)) (mem s') = mem s) as Herr.
  { intros Hr. destruct (AllocateMaskNA_result _ _ _ _ _ _ H) as [->| ->]; [done|].
    split; [done|]. split; [by eapply AllocateMaskNA_failure_fa|].
    by eapply AllocateMaskNA_failure_rest. }
  split; [done|]. intros Hfa. destruct (decide (r = 0)); [done|].
  destruct Herr as (_ & ? & _); done.
Qed.

Lemma AllocateMaskNA_error_leaves_array_witness :
  PyArray_AllocateMaskNA world_no_memory false false (fresh arr_2x3)
    = Some (-1, st_no_memory) ∧
  (-1 ≠ 0 →
     -1 = -1 ∧ fa st_no_memory = fa (fresh arr_2x3) ∧
     is_Some (pyerr st_no_memory) ∧
     take (length (mem (fresh arr_2x3))) (mem st_no_memory)
       = mem (fresh arr_2x3)) ∧
  (fa st_no_memory ≠ fa (fresh arr_2x3) → -1 = 0).
Proof.
  split; [reflexivity|].
  apply (AllocateMaskNA_error_leaves_array world_no_memory false false
           (fresh arr_2x3) (-1) st_no_memory).
  reflexivity.
Defined.

(** C7, as the code has it.  The field check comes after the two early
    exits.  A call on an array with fields that gets past them fails
    with the RuntimeError "NumPy field-NA isn't supported yet"; nothing
    has been allocated at that point and neither the array nor the heap
    has changed. *)
Theorem AllocateMaskNA_fields_rejected w ownmaskna multina s :
  PyArray_HASFIELDS (fa s) = true →
  allocates (fa s) ownmaskna →
  PyArray_AllocateMaskNA w ownmaskna multina s =
    Some (-1, {| fa := fa s; mem := mem s;
                 pyerr := Some (PyExc_RuntimeError
                                  "NumPy field-NA isn't supported yet") |}).
Proof.
  intros Hf [Hown Hreq]%allocates_guard.
  unfold PyArray_AllocateMaskNA. unfold_monad.
  by rewrite Hown, Hreq, Hf.
Qed.

Lemma AllocateMaskNA_fields_rejected_witness :
  PyArray_HASFIELDS (fa (fresh arr_fields)) = true ∧
  allocates (fa (fresh arr_fields)) true ∧
  PyArray_AllocateMaskNA world_ok true false (fresh arr_fields) =
    Some (-1, {| fa := arr_fields; mem := [];
                 pyerr := Some (PyExc_RuntimeError
                                  "NumPy field-NA isn't supported yet") |}).
Proof.
  assert (allocates (fa (fresh arr_fields)) true) as H
    by (split; [reflexivity|left; reflexivity]).
  split; [reflexivity|]. split; [exact H|].
  exact (AllocateMaskNA_fields_rejected world_ok true false (fresh arr_fields)
           eq_refl H).
Defined.

(** C7 as stated fails: an array with fields that already owns a mask
    is accepted by the first early exit. *)
Lemma AllocateMaskNA_fields_not_always_rejected :
  PyArray_HASFIELDS arr_fields_owned = true ∧
  PyArray_AllocateMaskNA world_ok true false
    {| fa := arr_fields_owned; mem := [Some [1; 1]]; pyerr := None |} =
  Some (0, {| fa := arr_fields_owned; mem := [Some [1; 1]]; pyerr := None |}).
Proof. split; reflexivity. Qed.

(** ** Main results: the postcondition *)

(** C6 as stated fails: with [ownmaskna] false, an array that borrows
    its mask is left as it is, and the call succeeds although the array
    does not own the mask. *)
Lemma AllocateMaskNA_success_without_ownership :
  ∃ s', PyArray_AllocateMaskNA world_ok false false st_borrowed = Some (0, s') ∧
        ¬ (hasMask (fa s') ∧ ownsMask (fa s')).
Proof. exists st_borrowed. split; [reflexivity|]. by intros [_ ?]. Qed.

(** C6, as the code has it.  After a successful call the array has a
    mask, provided it satisfied "owns a mask implies has a mask" before;
    and it owns the mask whenever ownership was requested or there was
    no mask before the call.  (The remaining case is the second early
    exit, which keeps a borrowed mask borrowed.) *)
Theorem AllocateMaskNA_success_postcondition w ownmaskna multina s s' :
  (ownsMask (fa s) → hasMask (fa s)) →
  PyArray_AllocateMaskNA w ownmaskna multina s = Some (0, s') →
  hasMask (fa s') ∧
  (ownmaskna = true ∨ ¬ hasMask (fa s) → ownsMask (fa s')).
Proof.
  unfold hasMask, ownsMask. intros Hinv H.
  destruct (flag_set (fa s) NPY_ARRAY_OWNMASKNA) eqn:Hown.
  { rewrite AllocateMaskNA_owned in H by done. simplify_eq. auto. }
  destruct (decide (ownmaskna = false ∧
                    flag_set (fa s) NPY_ARRAY_MASKNA = true)) as [[-> Hhas]|Hno].
  { rewrite AllocateMaskNA_borrowed_ok in H by done. simplify_eq.
    split; [done|]. intros [?|?]; done. }
  assert (allocates (fa s) ownmaskna) as Halloc.
  { split; [done|]. destruct ownmaskna; [by left|right].
    destruct (flag_set (fa s) NPY_ARRAY_MASKNA); [|done]. by destruct Hno. }
  destruct (AllocateMaskNA_success_fa _ _ _ _ _ Halloc H) as (l & _ & Hfa & _).
  split; [|intros _]; (eapply flag_set_lor_l; [by rewrite Hfa|done..]).
Qed.

Lemma AllocateMaskNA_success_postcondition_witness :
  (ownsMask (fa st_borrowed) → hasMask (fa st_borrowed)) ∧
  PyArray_AllocateMaskNA world_ok true false st_borrowed
    = Some (0, st_borrowed_migrated) ∧
  hasMask (fa st_borrowed_migrated) ∧
  (true = true ∨ ¬ hasMask (fa st_borrowed) →
   ownsMask (fa st_borrowed_migrated)).
Proof.
  assert (ownsMask (fa st_borrowed) → hasMask (fa st_borrowed)) as Hinv
    by (intros _; reflexivity).
  split; [exact Hinv|]. split; [reflexivity|].
  exact (AllocateMaskNA_success_postcondition world_ok true false st_borrowed
           st_borrowed_migrated Hinv eq_refl).
Defined.

(** ** Main results: [PyArray_ContainsNA] *)

Lemma ContainsNA_false arr h : PyArray_ContainsNA arr h = false.
Proof. unfold PyArray_ContainsNA. by destruct (negb _). Qed.

Lemma ContainsNA_without_support arr h :
  PyArray_HasNASupport arr = false → PyArray_ContainsNA arr h = false.
Proof. intros _. apply ContainsNA_false. Qed.

(** C9, on the code.  The vector [arr_borrowed] has NA support and its
    second element is NA, so that the documented result of
    [PyArray_ContainsNA] is true; the function returns false (the loop
    over the mask is a TODO). *)
Theorem ContainsNA_misses_NA :
  PyArray_HasNASupport arr_borrowed = true ∧
  element_status arr_borrowed (mem st_borrowed) [1] = Some true ∧
  ContainsNA_spec arr_borrowed (mem st_borrowed) = true ∧
  PyArray_ContainsNA arr_borrowed (mem st_borrowed) = false.
Proof. split_and!; reflexivity. Qed.

(** ** Main results: the layout of the new mask *)

Section allocated_layout.
Context (w : World) (ownmaskna multina : npy_bool) (s s' : state).
Hypothesis Hwf : wf_array (fa s).
Hypothesis Halloc : allocates (fa s) ownmaskna.
Hypothesis Hrun :
  PyArray_AllocateMaskNA w ownmaskna multina s = Some (0, s').

Lemma allocated_strides :
  new_maskna_strides (fa s) 1 = Some (maskna_strides (fa s')).
Proof.
  destruct (AllocateMaskNA_success_fa _ _ _ _ _ Halloc Hrun) as (l & Hl & -> & _).
  done.
Qed.

Lemma allocated_agree :
  Forall (λ n, 1 <= n) (dimensions (fa s)) →
  strides_agree (nd (fa s)) (strides (fa s)) (maskna_strides (fa s')).
Proof.
  intros Hpos ax bx Hax Hbx Hlt.
  pose proof allocated_strides as Hl.
  apply (elem_of_placement_order _ Hwf), list_elem_of_lookup in Hax as [j Hj].
  apply (elem_of_placement_order _ Hwf), list_elem_of_lookup in Hbx as [k Hk].
  destruct (decide (k ≤ j)%nat) as [Hkj|Hjk].
  { pose proof (placement_order_ascending _ Hwf _ _ _ _ Hkj Hk Hj). lia. }
  rewrite (list_lookup_total_correct _ _ _
             (new_maskna_strides_lookup _ Hwf _ _ Hl _ _ Hj)).
  rewrite (list_lookup_total_correct _ _ _
             (new_maskna_strides_lookup _ Hwf _ _ Hl _ _ Hk)).
  rewrite <-(take_drop j (take k (placement_order (fa s)))).
  rewrite take_take, Nat.min_l by lia.
  unfold extents. rewrite fmap_app, Zprod_app.
  assert (∀ o, (∀ ax', ax' ∈ o → ax' ∈ placement_order (fa s)) →
               1 <= Zprod (extents (dimensions (fa s)) o)) as Hge.
  { intros o Ho. apply Zprod_pos, Forall_extents; [done|].
    intros ax' Hin%Ho%(elem_of_placement_order _ Hwf).
    destruct Hwf as (_ & -> & _). done. }
  assert (1 <= Zprod (extents (dimensions (fa s))
                        (take j (placement_order (fa s))))) as H1.
  { apply Hge.
    intros ax' [i [Hi _]%lookup_take_Some]%list_elem_of_lookup.
    by eapply list_elem_of_lookup_2. }
  assert (1 <= Zprod (extents (dimensions (fa s))
                        (drop j (take k (placement_order (fa s)))))) as H2.
  { apply Hge.
    intros ax' [i Hi]%list_elem_of_lookup. rewrite lookup_drop in Hi.
    apply lookup_take_Some in Hi as [Hi _]. by eapply list_elem_of_lookup_2. }
  unfold extents in H1, H2. nia.
Qed.

Lemma allocated_strides_fit ax st :
  (ax < nd (fa s))%nat → maskna_strides (fa s') !! ax = Some st →
  0 <= st <= NPY_MAX_INTP.
Proof.
  intros Hax Hst.
  destruct (new_maskna_strides_multiple _ Hwf 1 _ allocated_strides ax)
    as (k & Hk & Hk0 & [_ Hfit] & _); [by compute|done|].
  rewrite Hst in Hk. injection Hk as ->. lia.
Qed.

Lemma allocated_offset_bounds idx :
  idx ∈ elements (fa s) →
  0 <= offset idx (take (nd (fa s)) (maskna_strides (fa s')))
    < PyArray_SIZE (fa s).
Proof.
  intros Hidx.
  rewrite (new_maskna_strides_offset _ Hwf _ _ allocated_strides _ Hidx).
  pose proof (layout_bounds _ Hwf _ Hidx). lia.
Qed.

Lemma allocated_offset_inj idx idx' :
  idx ∈ elements (fa s) → idx' ∈ elements (fa s) →
  offset idx (take (nd (fa s)) (maskna_strides (fa s'))) =
  offset idx' (take (nd (fa s)) (maskna_strides (fa s'))) →
  idx = idx'.
Proof.
  intros Hidx Hidx'.
  rewrite !(new_maskna_strides_offset _ Hwf _ _ allocated_strides) by done.
  intros Heq. apply (layout_inj _ Hwf); [done..|lia].
Qed.
End allocated_layout.

(** C1, as the code has it.  For an array of rank at least 2 that is not
    too big (the product of its non-zero extents fits [npy_intp], so that
    no product of the stride loop overflows) and on which
    [PyArray_AllocateMaskNA] allocates a mask, let [order] list the axes
    from the back of the stride-sorted permutation to its front.  Then
    [order] holds every axis once, by ascending magnitude of the data
    stride; the axis at position [k] of [order] gets as mask stride the
    mask element size times the extents of the axes before it in [order]
    (so the first one, of smallest data stride, gets the element size), a
    value between 0 and [NPY_MAX_INTP]; and, when every extent is at
    least 1, an axis of smaller data stride magnitude never gets the
    larger mask stride. *)
Theorem AllocateMaskNA_strides_follow_data w ownmaskna multina s s' :
  wf_array (fa s) → array_fits_intp (fa s) →
  (2 ≤ nd (fa s))%nat → allocates (fa s) ownmaskna →
  PyArray_AllocateMaskNA w ownmaskna multina s = Some (0, s') →
  let order := placement_order (fa s) in
  order ≡ₚ seq 0 (nd (fa s)) ∧
  (∀ j k aj ak, (j ≤ k)%nat → order !! j = Some aj → order !! k = Some ak →
     Z.abs (strides (fa s) !!! aj) <= Z.abs (strides (fa s) !!! ak)) ∧
  (∀ k ax, order !! k = Some ax →
     maskna_strides (fa s') !! ax =
       Some (elsize (new_dtype multina) *
             Zprod (extents (dimensions (fa s)) (take k order))) ∧
     0 <= elsize (new_dtype multina) *
            Zprod (extents (dimensions (fa s)) (take k order))
       <= NPY_MAX_INTP) ∧
  (Forall (λ n, 1 <= n) (dimensions (fa s)) →
   strides_agree (nd (fa s)) (strides (fa s)) (maskna_strides (fa s'))).
Proof.
  intros Hwf Hfit Hnd Halloc Hrun order.
  pose proof (allocated_strides _ _ _ _ _ Halloc Hrun) as Hl.
  subst order. split_and!.
  - by apply placement_order_Permutation.
  - by apply placement_order_ascending.
  - intros k ax Hk. split.
    { by eapply new_maskna_strides_lookup. }
    assert (k < nd (fa s))%nat as Hlt.
    { apply lookup_lt_Some in Hk.
      by rewrite (placement_order_length _ Hwf) in Hk. }
    split.
    + simpl. rewrite Z.mul_1_l.
      apply Zprod_nonneg, Forall_extents; [by destruct Hwf as (_&_&_&_&?)|].
      intros ax' [i [Hi _]%lookup_take_Some]%list_elem_of_lookup.
      apply list_elem_of_lookup_2, (elem_of_placement_order _ Hwf) in Hi.
      destruct Hwf as (_ & -> & _). done.
    + eapply (new_maskna_strides_fit _ Hwf 1 _ Hl k); [|done].
      unfold intp_fits, NPY_MIN_INTP, NPY_MAX_INTP. lia.
  - by eapply allocated_agree.
Qed.

(** C1 as stated fails on an array with an empty axis: in the 2x0x3
    array the last axis has the smallest data stride and the first one
    the largest, but the first axis gets the mask stride 0. *)
Lemma AllocateMaskNA_order_lost_on_empty_axis :
  ∃ s', PyArray_AllocateMaskNA world_ok false false (fresh arr_2x0x3)
          = Some (0, s') ∧
        strides (fa s') = [48; 24; 8] ∧
        maskna_strides (fa s') = [0; 3; 1] ∧
        ¬ strides_agree 3 (strides (fa s')) (maskna_strides (fa s')).
Proof.
  eexists. split; [vm_compute; reflexivity|]. split_and!; [done..|].
  intros H. assert (1 <= 0) as Habs; [|lia].
  apply (H 2%nat 0%nat); [lia..|]. vm_compute. reflexivity.
Qed.

Ltac solve_wf :=
  unfold wf_array; simpl; split_and!;
    [vm_compute; lia|reflexivity..|repeat constructor; lia].

Lemma wf_arr_2x3x4_F : wf_array arr_2x3x4_F.
Proof. solve_wf. Qed.

Lemma wf_arr_2x3x4_borrowed : wf_array arr_2x3x4_borrowed.
Proof. solve_wf. Qed.

Lemma wf_arr_borrowed : wf_array arr_borrowed.
Proof. solve_wf. Qed.

Lemma wf_arr_2x3 : wf_array arr_2x3.
Proof. solve_wf. Qed.

Lemma AllocateMaskNA_strides_follow_data_witness :
  wf_array (fa (fresh arr_2x3x4_F)) ∧
  array_fits_intp (fa (fresh arr_2x3x4_F)) ∧
  PyArray_AllocateMaskNA world_ok false false (fresh arr_2x3x4_F)
    = Some (0, st_2x3x4_F_masked) ∧
  placement_order arr_2x3x4_F = [0; 1; 2]%nat ∧
  (maskna_strides (fa st_2x3x4_F_masked) !! 2%nat = Some (1 * (2 * (3 * 1))) ∧
   0 <= 1 * (2 * (3 * 1)) <= NPY_MAX_INTP) ∧
  strides_agree 3 [8; 16; 48] [1; 2; 6].
Proof.
  assert (allocates (fa (fresh arr_2x3x4_F)) false) as Halloc
    by (split; [reflexivity|right; reflexivity]).
  assert (2 ≤ nd (fa (fresh arr_2x3x4_F)))%nat as Hnd by (simpl; lia).
  assert (array_fits_intp (fa (fresh arr_2x3x4_F))) as Hfit
    by (vm_compute; discriminate).
  destruct (AllocateMaskNA_strides_follow_data world_ok false false
              (fresh arr_2x3x4_F) st_2x3x4_F_masked
              wf_arr_2x3x4_F Hfit Hnd Halloc eq_refl)
    as (_ & _ & Hk & Hagree).
  split; [exact wf_arr_2x3x4_F|]. split; [exact Hfit|]. split; [reflexivity|].
  split; [reflexivity|]. split.
  - exact (Hk 2%nat 2%nat eq_refl).
  - apply Hagree. repeat constructor; lia.
Defined.

(** C10, as the code has it.  For an array of rank at least 1 that is
    not too big (the product of its non-zero extents fits [npy_intp], so
    that no product of the stride loop overflows) and on which
    [PyArray_AllocateMaskNA] allocates a mask, whatever the signs and
    overlaps of the data strides: every installed mask stride is the
    mask element size times a non-negative integer, which is at least 1
    when every extent is at least 1, and fits [npy_intp]; the mask cells
    of the elements lie inside the [elementCount * elementSize] bytes of
    the buffer; and different elements have different cells. *)
Theorem AllocateMaskNA_strides_packed w ownmaskna multina s s' :
  wf_array (fa s) → array_fits_intp (fa s) →
  (1 ≤ nd (fa s))%nat → allocates (fa s) ownmaskna →
  PyArray_AllocateMaskNA w ownmaskna multina s = Some (0, s') →
  let e := elsize (new_dtype multina) in
  let cell idx := offset idx (take (nd (fa s)) (maskna_strides (fa s'))) in
  maskna_dtype (fa s') = Some (new_dtype multina) ∧
  (∀ ax, (ax < nd (fa s))%nat →
     ∃ k, maskna_strides (fa s') !! ax = Some (k * e) ∧ 0 <= k ∧
          intp_fits (k * e) ∧
          (Forall (λ n, 1 <= n) (dimensions (fa s)) → 1 <= k)) ∧
  (∀ idx, idx ∈ elements (fa s) →
     0 <= cell idx ∧ cell idx + e <= PyArray_SIZE (fa s) * e) ∧
  (∀ idx idx', idx ∈ elements (fa s) → idx' ∈ elements (fa s) →
     cell idx = cell idx' → idx = idx').
Proof.
  intros Hwf Hfit Hnd Halloc Hrun e cell. split_and!.
  - destruct (AllocateMaskNA_success_fa _ _ _ _ _ Halloc Hrun) as (l & _ & -> & _).
    done.
  - intros ax Hax. eapply new_maskna_strides_multiple; [done| |by compute|done].
    by eapply allocated_strides.
  - intros idx Hidx. unfold cell, e. simpl.
    pose proof (allocated_offset_bounds _ _ _ _ _ Hwf Halloc Hrun _ Hidx). lia.
  - intros idx idx'. by eapply allocated_offset_inj.
Qed.

(** C10 as stated fails on an array with an empty axis: the first axis
    of the 2x0x3 array gets the mask stride 0. *)
Lemma AllocateMaskNA_zero_stride_on_empty_axis :
  ∃ s', PyArray_AllocateMaskNA world_ok false false (fresh arr_2x0x3)
          = Some (0, s') ∧
        maskna_strides (fa s') !! 0%nat = Some 0 ∧
        ¬ Forall (λ st, 0 < st) (maskna_strides (fa s')).
Proof.
  eexists. split; [vm_compute; reflexivity|]. split; [reflexivity|].
  intros H. apply Forall_cons_1 in H as [H _]. simpl in H. lia.
Qed.

Lemma wf_arr_broadcast : wf_array arr_broadcast.
Proof. solve_wf. Qed.

Lemma AllocateMaskNA_strides_packed_witness :
  wf_array (fa (fresh arr_broadcast)) ∧
  array_fits_intp (fa (fresh arr_broadcast)) ∧
  PyArray_AllocateMaskNA world_ok false true (fresh arr_broadcast)
    = Some (0, st_broadcast_masked) ∧
  (∃ k, maskna_strides (fa st_broadcast_masked) !! 0%nat = Some (k * 1) ∧
        0 <= k ∧ intp_fits (k * 1) ∧
        (Forall (λ n, 1 <= n) [2; 2] → 1 <= k)) ∧
  ([0; 1] ∈ elements arr_broadcast →
   0 <= offset [0; 1] [1; 2] ∧ offset [0; 1] [1; 2] + 1 <= 4 * 1).
Proof.
  assert (allocates (fa (fresh arr_broadcast)) false) as Halloc
    by (split; [reflexivity|right; reflexivity]).
  assert (1 ≤ nd (fa (fresh arr_broadcast)))%nat as Hnd by (simpl; lia).
  assert (array_fits_intp (fa (fresh arr_broadcast))) as Hfit
    by (vm_compute; discriminate).
  destruct (AllocateMaskNA_strides_packed world_ok false true
              (fresh arr_broadcast) st_broadcast_masked
              wf_arr_broadcast Hfit Hnd Halloc eq_refl) as (_ & Hmul & Hin & _).
  split; [exact wf_arr_broadcast|]. split; [exact Hfit|].
  split; [reflexivity|]. split.
  - apply (Hmul 0%nat). simpl. lia.
  - exact (Hin [0; 1]).
Defined.

(** ** The fresh block *)

Lemma insert_fresh_block (h : heap) b b' :
  <[length h := b']> (h ++ [b]) = h ++ [b'].
Proof.
  replace (length h) with (length h + 0)%nat at 1 by lia.
  by rewrite insert_app_r.
Qed.

Lemma lookup_fresh_block (h : heap) b : (h ++ [b]) !! length h = Some b.
Proof. by apply list_lookup_middle. Qed.

(** Filling all of the fresh block. *)
Lemma store_range_fresh (h : heap) data vs :
  length vs = length data →
  store_range (h ++ [Some data]) {| blk := length h; ofs := 0 |} vs =
    Some (h ++ [Some vs]).
Proof.
  intros Hlen.
  rewrite (store_range_block _ (length h) 0 data vs);
    [|apply lookup_fresh_block|simpl; lia].
  rewrite insert_fresh_block. simpl.
  by rewrite drop_ge, app_nil_r by lia.
Qed.

Lemma store_fresh (h : heap) data (o : nat) v :
  (o < length data)%nat →
  store (h ++ [Some data]) {| blk := length h; ofs := Z.of_nat o |} v =
    Some (h ++ [Some (<[o := v]> data)]).
Proof.
  intros Ho. apply store_Some. exists data. simpl. split_and!.
  - apply lookup_fresh_block.
  - lia.
  - lia.
  - by rewrite insert_fresh_block, Nat2Z.id.
Qed.

Lemma load_old_block (h : heap) b p :
  (blk p < length h)%nat → load (h ++ [b]) p = load h p.
Proof. intros ?. unfold load. by rewrite lookup_app_l. Qed.

Lemma load_fresh_block (h : heap) data (o : nat) :
  load (h ++ [Some data]) {| blk := length h; ofs := Z.of_nat o |} = data !! o.
Proof.
  unfold load. simpl. rewrite lookup_fresh_block. simpl.
  rewrite bool_decide_true by lia. by rewrite Nat2Z.id.
Qed.

Lemma rank0_SIZE a :
  nd a ≠ 1%nat → ¬ (1 < nd a)%nat → PyArray_SIZE a = 1.
Proof.
  intros ??. assert (nd a = 0%nat) as Hnd by lia.
  unfold PyArray_SIZE, PyArray_MultiplyList. by rewrite Hnd.
Qed.

(** ** Main results: the default fill *)

Lemma AllocateMaskNA_fresh_mem w ownmaskna multina s s' :
  flag_set (fa s) NPY_ARRAY_OWNMASKNA = false →
  flag_set (fa s) NPY_ARRAY_MASKNA = false →
  PyArray_AllocateMaskNA w ownmaskna multina s = Some (0, s') →
  mem s' = mem s ++ [Some (replicate (Z.to_nat (PyArray_SIZE (fa s))) 1)].
Proof.
  intros Hown Hhas.
  unfold PyArray_AllocateMaskNA. unfold_monad.
  rewrite Hown, Hhas, andb_false_r. intros H.
  run_cases;
    repeat match goal with
    | H : context [_ * 1] |- _ => rewrite Z.mul_1_r in H
    | H : store_range _ _ _ = Some _ |- _ =>
        rewrite store_range_fresh in H
          by (by rewrite length_replicate, length_fmap, length_seq);
        simplify_eq
    end; try done.
  repeat case_bool_decide; try done.
  match goal with
  | H : store _ _ _ = Some _ |- _ =>
      rewrite rank0_SIZE in H |- * by done;
      change 0 with (Z.of_nat 0) in H;
      rewrite store_fresh in H by (simpl; lia); by simplify_eq
  end.
Qed.

Lemma no_mask_allocates a ownmaskna :
  (ownsMask a → hasMask a) → ¬ hasMask a → allocates a ownmaskna.
Proof.
  unfold ownsMask, hasMask, allocates. intros Hinv Hno.
  destruct (flag_set a NPY_ARRAY_MASKNA), (flag_set a NPY_ARRAY_OWNMASKNA);
    try done; tauto.
Qed.

(** The mask cell of an element of an array whose mask is the block
    allocated by the call. *)
Lemma mask_cell_allocated w ownmaskna multina s s' idx :
  wf_array (fa s) → allocates (fa s) ownmaskna →
  PyArray_AllocateMaskNA w ownmaskna multina s = Some (0, s') →
  idx ∈ elements (fa s) →
  ∃ o : nat,
    (o < Z.to_nat (PyArray_SIZE (fa s)))%nat ∧
    Z.of_nat o = offset idx (take (nd (fa s)) (maskna_strides (fa s'))) ∧
    mask_cell (fa s') (mem s') idx =
      load (mem s') {| blk := length (mem s); ofs := Z.of_nat o |}.
Proof.
  intros Hwf Halloc Hrun Hidx.
  pose proof (allocated_offset_bounds _ _ _ _ _ Hwf Halloc Hrun _ Hidx) as Hb.
  destruct (AllocateMaskNA_success_fa _ _ _ _ _ Halloc Hrun) as (l & Hl & Hfa & _).
  unfold mask_cell. rewrite Hfa in Hb |- *. simpl in Hb |- *.
  exists (Z.to_nat (offset idx (take (nd (fa s)) l))).
  split; [lia|]. split; [lia|].
  unfold ptr_add. simpl. do 2 f_equal. lia.
Qed.

(** C5, as the code has it.  For an array without a mask, a successful
    [PyArray_AllocateMaskNA] leaves a new buffer of [elementCount] bytes
    in which every cell holds the byte 1 (only the lowest bit set), for
    the Boolean and for the MultiNA representation alike; no cell is NA,
    and every logical element reads as available. *)
Theorem AllocateMaskNA_fills_with_ones w ownmaskna multina s s' :
  (ownsMask (fa s) → hasMask (fa s)) → ¬ hasMask (fa s) →
  PyArray_AllocateMaskNA w ownmaskna multina s = Some (0, s') →
  let buf := replicate (Z.to_nat (PyArray_SIZE (fa s))) 1 in
  maskna_data (fa s') = Some {| blk := length (mem s); ofs := 0 |} ∧
  maskna_dtype (fa s') = Some (new_dtype multina) ∧
  mem s' = mem s ++ [Some buf] ∧
  Forall (λ c, c = 1 ∧ is_NA c = false) buf ∧
  (wf_array (fa s) →
   ∀ idx, idx ∈ elements (fa s) →
     mask_cell (fa s') (mem s') idx = Some 1 ∧
     element_status (fa s') (mem s') idx = Some false).
Proof.
  intros Hinv Hno Hrun buf.
  pose proof (no_mask_allocates _ ownmaskna Hinv Hno) as Halloc.
  assert (mem s' = mem s ++ [Some buf]) as Hmem.
  { destruct Halloc as [Hown _]. eapply AllocateMaskNA_fresh_mem; [done| |done].
    unfold hasMask in Hno. by destruct (flag_set (fa s) NPY_ARRAY_MASKNA). }
  destruct (AllocateMaskNA_success_fa _ _ _ _ _ Halloc Hrun) as (l & Hl & Hfa & _).
  split_and!; [by rewrite Hfa..|done| |].
  - apply Forall_replicate. done.
  - intros Hwf idx Hidx.
    destruct (mask_cell_allocated _ _ _ _ _ _ Hwf Halloc Hrun Hidx)
      as (o & Ho & _ & Hcell).
    assert (mask_cell (fa s') (mem s') idx = Some 1) as Hone.
    { rewrite Hcell, Hmem, load_fresh_block. by apply lookup_replicate_2. }
    split; [done|]. unfold element_status. by rewrite Hone.
Qed.

Lemma AllocateMaskNA_fills_with_ones_witness :
  (ownsMask (fa (fresh arr_2x3)) → hasMask (fa (fresh arr_2x3))) ∧
  ¬ hasMask (fa (fresh arr_2x3)) ∧
  ∃ s', PyArray_AllocateMaskNA world_ok false false (fresh arr_2x3)
          = Some (0, s') ∧
        mem s' = [Some [1; 1; 1; 1; 1; 1]] ∧
        maskna_strides (fa s') = [3; 1] ∧
        mask_cell (fa s') (mem s') [1; 2] = Some 1.
Proof.
  assert (ownsMask (fa (fresh arr_2x3)) → hasMask (fa (fresh arr_2x3))) as Hinv
    by (intros H; discriminate H).
  assert (¬ hasMask (fa (fresh arr_2x3))) as Hno by (intros H; discriminate H).
  split; [exact Hinv|]. split; [exact Hno|].
  eexists. split; [vm_compute; reflexivity|].
  edestruct (AllocateMaskNA_fills_with_ones world_ok false false
               (fresh arr_2x3) _ Hinv Hno eq_refl)
    as (_ & _ & Hmem & _ & Hcells).
  split; [exact Hmem|]. split; [reflexivity|].
  apply (Hcells wf_arr_2x3 [1; 2]). vm_compute.
  do 5 right. left.
Defined.

(** C5 as stated fails: the fill byte is 1, not a byte whose bits are
    all set. *)
Lemma AllocateMaskNA_fill_byte_is_one :
  ∃ s' c, PyArray_AllocateMaskNA world_ok false false (fresh arr_2x3)
            = Some (0, s') ∧
          mask_cell (fa s') (mem s') [0; 0] = Some c ∧
          c = 1 ∧ ¬ all_bits_one c.
Proof.
  eexists _, 1. split; [vm_compute; reflexivity|]. split; [reflexivity|].
  split; [done|]. intros H. specialize (H 1). simpl in H.
  assert (false = true) by (apply H; lia). done.
Qed.

(** ** Migration of a prior mask *)

(** The cast never turns an available element into NA or back. *)
Lemma cast_value_is_NA src_t dst_t v :
  is_NA (cast_value src_t dst_t v) = is_NA v.
Proof.
  unfold cast_value, is_NA. case_decide; [done|].
  destruct dst_t; try done. destruct (Z.eqb_spec v 0); by subst.
Qed.

Section migrate.
Context (h : heap) (data : list Z) (p_old : ptr).
Hypothesis Hold : (blk p_old < length h)%nat.

Lemma migrate_memcpy vs h' (o : nat) :
  load_range (h ++ [Some data]) p_old (length data) = Some vs →
  store_range (h ++ [Some data]) {| blk := length h; ofs := 0 |} vs
    = Some h' →
  (o < length data)%nat →
  ∃ v, load h (p_old +ₚ Z.of_nat o) = Some v ∧
       load h' {| blk := length h; ofs := Z.of_nat o |} = Some v.
Proof.
  intros [Hlen Hvs]%load_range_Some Hst Ho.
  rewrite store_range_fresh in Hst by done. simplify_eq.
  destruct (lookup_lt_is_Some_2 vs o) as [v Hv]; [lia|].
  exists v. split.
  - rewrite <-Hv, <-Hvs by done. symmetry. by apply load_old_block.
  - by rewrite load_fresh_block.
Qed.

Lemma migrate_cast src_t dst_t offs h' so do :
  cast_loop src_t dst_t p_old {| blk := length h; ofs := 0 |} offs
    (h ++ [Some data]) = Some h' →
  NoDup offs.*2 → (so, do) ∈ offs →
  ∃ v, load h (p_old +ₚ so) = Some v ∧
       load h' {| blk := length h; ofs := do |}
         = Some (cast_value src_t dst_t v).
Proof.
  intros Hloop Hnd Hin.
  assert (blk p_old ≠ blk {| blk := length h; ofs := 0 |}) as Hne
    by (simpl; lia).
  destruct (cast_loop_spec src_t dst_t p_old {| blk := length h; ofs := 0 |}
              Hne offs _ h' so do Hloop Hnd Hin) as (v & Hv & Hres).
  exists v. split; [|unfold ptr_add in Hres; simpl in Hres; done].
  rewrite <-Hv. symmetry. by apply load_old_block.
Qed.
End migrate.

Lemma NoDup_rank1_offsets count s1 :
  NoDup ((λ k, (k * s1, k * 1)) <$> seqZ 0 count).*2.
Proof.
  rewrite <-list_fmap_compose. apply NoDup_fmap_2; [|apply NoDup_seqZ].
  intros x y. simpl. lia.
Qed.

Lemma rank1_SIZE a n :
  nd a = 1%nat → dimensions a !! 0%nat = Some n → PyArray_SIZE a = n.
Proof.
  intros Hnd Hn. unfold PyArray_SIZE, PyArray_MultiplyList. rewrite Hnd.
  destruct (dimensions a) as [|? l]; simplify_eq/=.
  destruct l; simpl; lia.
Qed.

Lemma rank1_elements a idx :
  wf_array a → nd a = 1%nat → idx ∈ elements a →
  ∃ i n, idx = [i] ∧ dimensions a !! 0%nat = Some n ∧ 0 <= i < n.
Proof.
  unfold elements. intros (_ & Hlen & _) Hnd Hin. rewrite Hnd in *.
  destruct (dimensions a) as [|n dims]; simpl in *.
  - lia.
  - apply list_elem_of_bind in Hin as (i & Hin & Hi%elem_of_seqZ).
    apply list_elem_of_singleton in Hin as ->.
    exists i, n. split_and!; [done..|lia|lia].
Qed.

Lemma wf_rank1_lists a :
  wf_array a → nd a = 1%nat →
  ∃ n z, dimensions a = [n] ∧ maskna_strides a = [z].
Proof.
  intros (_ & Hd & _ & Hm & _) Hnd. rewrite Hnd in *.
  destruct (dimensions a) as [|n [|? ?]]; simplify_eq/=.
  destruct (maskna_strides a) as [|z [|? ?]]; simplify_eq/=. eauto.
Qed.

Lemma wf_rank0_elements a idx :
  nd a ≠ 1%nat → ¬ (1 < nd a)%nat → idx ∈ elements a → idx = [].
Proof.
  intros ?? Hin. assert (nd a = 0%nat) as Hnd by lia.
  unfold elements in Hin. rewrite Hnd in Hin. simpl in Hin.
  by apply list_elem_of_singleton in Hin.
Qed.

(** The heart of the migration: the mask cell of every element after
    the call is the cast of its mask cell before the call. *)
Lemma AllocateMaskNA_migrates w multina s s' p_old idx :
  wf_array (fa s) →
  flag_set (fa s) NPY_ARRAY_OWNMASKNA = false →
  flag_set (fa s) NPY_ARRAY_MASKNA = true →
  maskna_data (fa s) = Some p_old → (blk p_old < length (mem s))%nat →
  PyArray_AllocateMaskNA w true multina s = Some (0, s') →
  idx ∈ elements (fa s) →
  ∃ v v', mask_cell (fa s) (mem s) idx = Some v ∧
          mask_cell (fa s') (mem s') idx = Some v' ∧
          is_NA v' = is_NA v.
Proof.
  intros Hwf Hown Hhas Hp Hblk Hrun Hidx.
  assert (allocates (fa s) true) as Halloc by (split; [done|by left]).
  destruct (mask_cell_allocated _ _ _ _ _ _ Hwf Halloc Hrun Hidx)
    as (o & Ho & Hoff & ->).
  destruct (AllocateMaskNA_success_fa _ _ _ _ _ Halloc Hrun) as (l & Hl & Hfa & _).
  rewrite Hfa in Hoff. simpl in Hoff. clear Hfa.
  unfold mask_cell. rewrite Hp. simpl.
  revert Hrun. unfold PyArray_AllocateMaskNA. unfold_monad.
  rewrite Hown, Hhas, Hp. simpl.
  generalize (if multina then NPY_MASK else NPY_BOOL). intros dst_t Hrun.
  run_cases.
  all: rewrite ?Z.mul_1_r in *.
  all: repeat match goal with
       | H : bool_decide _ = true |- _ => apply bool_decide_eq_true in H
       | H : bool_decide _ = false |- _ => apply bool_decide_eq_false in H
       end.
  all: match goal with
       | _ : wf_array (fa ?s0) |- _ =>
           rename s0 into s;
           set (data := junk w <$> seq 0 (Z.to_nat (PyArray_SIZE (fa s)))) in *;
           assert (length data = Z.to_nat (PyArray_SIZE (fa s))) as Hdata
             by (unfold data; by rewrite length_fmap, length_seq);
           rewrite <-Hdata in *; clearbody data
       end.
  - (* rank 1, flat copy *)
    assert (nd (fa s) = 1%nat) as Hnd by done. subst.
    destruct (wf_rank1_lists _ Hwf Hnd) as (n & z & Hdims & Hstr).
    destruct (rank1_elements _ _ Hwf Hnd Hidx) as (i & n' & -> & _ & Hi).
    unfold new_maskna_strides in Hl. rewrite bool_decide_true in Hl by done.
    rewrite Hstr in *. rewrite Hnd in *. simplify_eq/=.
    match goal with
    | Hld : load_range _ _ _ = Some _, Hst : store_range _ _ _ = Some _ |- _ =>
        destruct (migrate_memcpy _ _ _ Hblk _ _ o Hld Hst Ho) as (v & Hv & Hv')
    end.
    exists v, v. split_and!; [|done..].
    rewrite <-Hv. do 2 f_equal. lia.
  - (* rank 1, cast *)
    assert (nd (fa s) = 1%nat) as Hnd by done.
    destruct (wf_rank1_lists _ Hwf Hnd) as (n & z' & Hdims & Hstr).
    destruct (rank1_elements _ _ Hwf Hnd Hidx) as (i & n' & -> & Hn' & Hi).
    unfold new_maskna_strides in Hl. rewrite bool_decide_true in Hl by done.
    rewrite Hstr in *. rewrite Hdims in *. rewrite Hnd in *. simplify_eq/=.
    match goal with
    | Hc : cast_loop ?st _ _ _ (_ <$> seqZ 0 ?n) _ = Some _,
      Hz : maskna_strides _ = [?z] |- _ =>
        destruct (migrate_cast _ _ _ Hblk _ _ _ _ (i * z) (i * 1) Hc)
          as (v & Hv & Hv');
        [apply NoDup_rank1_offsets
        |apply list_elem_of_fmap; exists i; split; [done|];
         apply elem_of_seqZ; lia
        |exists v, (cast_value st dst_t v)]
    end.
    split_and!.
    + rewrite <-Hv. do 2 f_equal. lia.
    + rewrite <-Hv'. do 2 f_equal. lia.
    + apply cast_value_is_NA.
  - (* rank at least 2 *)
    destruct (new_maskna_strides_fill _ Hwf _ _ Hl) as (ms & Hms & ->).
    rewrite take_take, Nat.min_id in Hoff.
    match goal with
    | Hf : fill_maskna_strides _ _ _ _ _ = Some _ |- _ =>
        apply (fill_maskna_strides_placement _ Hwf) in Hf as [Hf _];
        rewrite Hms in Hf; injection Hf as <-
    end.
    match goal with
    | Hc : cast_loop ?st _ _ _ _ _ = Some _ |- _ =>
        destruct (migrate_cast _ _ _ Hblk _ _ _ _
                    (offset idx (take (nd (fa s)) (maskna_strides (fa s))))
                    (offset idx (take (nd (fa s)) ms)) Hc)
          as (v & Hv & Hv');
        [|
        |exists v, (cast_value st dst_t v)]
    end.
    + rewrite <-list_fmap_compose.
      apply NoDup_fmap_2_strong; [|apply NoDup_indices].
      intros x y Hx Hy. simpl.
      rewrite !(layout_offset _ Hwf _ _ Hms) by done.
      intros Heq. apply (layout_inj _ Hwf); [done..|lia].
    + apply list_elem_of_fmap. by exists idx.
    + split_and!; [done| |apply cast_value_is_NA]. by rewrite Hoff.
  - (* rank 0 *)
    rewrite (wf_rank0_elements _ _ ltac:(done) ltac:(done) Hidx) in *.
    simpl in Hoff. assert (o = 0%nat) as -> by lia.
    match goal with
    | Hld : load _ p_old = Some ?v, Hst : store _ _ _ = Some _ |- _ =>
        exists v, v; split_and!; [|by eapply load_store_eq|done];
        rewrite ptr_add_0, <-Hld; symmetry; by apply load_old_block
    end.
Qed.

(** ** Main results: migration *)

(** C3.  Let an array borrow a mask whose buffer lies in the heap, and
    let [PyArray_AllocateMaskNA] with [ownmaskna] true succeed on it.
    Then the array owns its mask, and the status (NA or available) of
    every logical element is defined before and after the call and is
    the same, whatever the strides of the old and of the new mask. *)
Theorem AllocateMaskNA_migration_preserves_status w multina s s' p_old :
  wf_array (fa s) → hasMask (fa s) → ¬ ownsMask (fa s) →
  maskna_data (fa s) = Some p_old → (blk p_old < length (mem s))%nat →
  PyArray_AllocateMaskNA w true multina s = Some (0, s') →
  ownsMask (fa s') ∧
  ∀ idx, idx ∈ elements (fa s) →
    ∃ st, element_status (fa s) (mem s) idx = Some st ∧
          element_status (fa s') (mem s') idx = Some st.
Proof.
  unfold hasMask, ownsMask. intros Hwf Hhas Hown Hp Hblk Hrun.
  apply not_true_is_false in Hown. split.
  - destruct (AllocateMaskNA_success_fa _ _ _ _ _
                (conj Hown (or_introl eq_refl)) Hrun) as (l & _ & Hfa & _).
    eapply flag_set_lor_l; [by rewrite Hfa|done..].
  - intros idx Hidx.
    destruct (AllocateMaskNA_migrates _ _ _ _ _ _ Hwf Hown Hhas Hp Hblk Hrun Hidx)
      as (v & v' & Hv & Hv' & Hna).
    exists (is_NA v). unfold element_status. rewrite Hv, Hv'. simpl.
    by rewrite Hna.
Qed.

Lemma AllocateMaskNA_migration_preserves_status_witness :
  wf_array (fa st_2x3x4_borrowed) ∧
  hasMask (fa st_2x3x4_borrowed) ∧ ¬ ownsMask (fa st_2x3x4_borrowed) ∧
  PyArray_AllocateMaskNA world_ok true false st_2x3x4_borrowed
    = Some (0, st_2x3x4_migrated) ∧
  ownsMask (fa st_2x3x4_migrated) ∧
  ∃ st, element_status (fa st_2x3x4_borrowed) (mem st_2x3x4_borrowed)
          [1; 2; 3] = Some st ∧
        element_status (fa st_2x3x4_migrated) (mem st_2x3x4_migrated)
          [1; 2; 3] = Some st.
Proof.
  assert (hasMask (fa st_2x3x4_borrowed)) as Hhas by reflexivity.
  assert (¬ ownsMask (fa st_2x3x4_borrowed)) as Hown
    by (intros H; discriminate H).
  assert (blk {| blk := 0; ofs := 23 |} < length (mem st_2x3x4_borrowed))%nat
    as Hblk by (simpl; lia).
  destruct (AllocateMaskNA_migration_preserves_status world_ok false
              st_2x3x4_borrowed st_2x3x4_migrated {| blk := 0; ofs := 23 |}
              wf_arr_2x3x4_borrowed Hhas Hown eq_refl Hblk eq_refl)
    as [Howns Hst].
  split; [exact wf_arr_2x3x4_borrowed|]. split; [exact Hhas|].
  split; [exact Hown|]. split; [reflexivity|]. split; [exact Howns|].
  apply Hst. vm_compute. do 23 right. left.
Defined.

(** ** Main results: the rank-1 fast path *)

(** C8, on the code.  The vector [arr_borrowed] has a prior MultiNA mask
    of stride 1 whose first cell is 2; a Boolean mask is requested.  The
    call takes the flat copy and the new Boolean mask holds the bytes
    2 and 0, where the strided cast of the same input gives 1 and 0. *)
Theorem AllocateMaskNA_flat_copy_differs :
  maskna_strides arr_borrowed !! 0%nat = Some (elsize bool_descr) ∧
  PyArray_AllocateMaskNA world_ok true false st_borrowed
    = Some (0, st_borrowed_migrated) ∧
  mem st_borrowed_migrated !! 1%nat = Some (Some [2; 0]) ∧
  rank1_buffer_after world_ok st_borrowed bool_descr
    (rank1_flat_copy arr_borrowed) = Some [2; 0] ∧
  rank1_buffer_after world_ok st_borrowed bool_descr
    (rank1_strided_cast world_ok arr_borrowed) = Some [1; 0].
Proof. split_and!; reflexivity. Qed.

(** ** The call does not fault *)

Lemma AllocateMaskNA_fresh_succeeds w ownmaskna multina s :
  wf_array (fa s) → array_fits_intp (fa s) →
  flag_set (fa s) NPY_ARRAY_OWNMASKNA = false →
  flag_set (fa s) NPY_ARRAY_MASKNA = false →
  PyArray_HASFIELDS (fa s) = false →
  descr_available w = true → malloc_succeeds w = true →
  ∃ s', PyArray_AllocateMaskNA w ownmaskna multina s = Some (0, s').
Proof.
  intros Hwf Hfit%array_fits_products Hown Hhas Hf Hd Hm; [|done].
  unfold PyArray_AllocateMaskNA. unfold_monad.
  rewrite Hown, Hhas, andb_false_r, Hf, Hd, Hm. simpl.
  rewrite !Z.mul_1_r.
  repeat case_bool_decide; simpl.
  - rewrite store_range_fresh
      by (by rewrite length_replicate, length_fmap, length_seq).
    by eexists.
  - destruct (fill_maskna_strides_is_Some _ Hwf 1 Hfit) as [ms ->]. simpl.
    rewrite store_range_fresh
      by (by rewrite length_replicate, length_fmap, length_seq).
    by eexists.
  - rewrite rank0_SIZE by done.
    change 0 with (Z.of_nat 0). rewrite store_fresh by (simpl; lia).
    by eexists.
Qed.

Lemma is_Some_load_fresh (h : heap) data p :
  blk p = length h → 0 <= ofs p < Z.of_nat (length data) →
  is_Some (load (h ++ [Some data]) p).
Proof.
  intros Hb Ho. destruct p as [b o]. simpl in *. subst b.
  rewrite <-(Z2Nat.id o) by lia. rewrite load_fresh_block.
  apply lookup_lt_is_Some_2. lia.
Qed.

Lemma AllocateMaskNA_migration_succeeds w multina s p_old d_old :
  wf_array (fa s) → array_fits_intp (fa s) →
  flag_set (fa s) NPY_ARRAY_OWNMASKNA = false →
  flag_set (fa s) NPY_ARRAY_MASKNA = true →
  PyArray_HASFIELDS (fa s) = false →
  descr_available w = true → malloc_succeeds w = true →
  cast_succeeds w = true →
  maskna_data (fa s) = Some p_old → (blk p_old < length (mem s))%nat →
  maskna_dtype (fa s) = Some d_old → is_mask_type (type_num d_old) = true →
  (∀ idx, idx ∈ elements (fa s) → is_Some (mask_cell (fa s) (mem s) idx)) →
  ∃ s', PyArray_AllocateMaskNA w true multina s = Some (0, s').
Proof.
  intros Hwf Hfit%array_fits_products Hown Hhas Hf Hd Hm Hc Hp Hblk Hdt Hmt
    Hread; [|done].
  assert (is_mask_type (if multina then NPY_MASK else NPY_BOOL) = true) as Hnew
    by (by destruct multina).
  assert (∀ idx, idx ∈ elements (fa s) →
            is_Some (load (mem s ++
                       [Some (junk w <$> seq 0 (Z.to_nat (PyArray_SIZE (fa s))))])
                       (p_old +ₚ offset idx (take (nd (fa s))
                                               (maskna_strides (fa s))))))
    as Hread'.
  { intros idx Hidx. rewrite load_old_block by done.
    specialize (Hread idx Hidx). unfold mask_cell in Hread.
    by rewrite Hp in Hread. }
  clear Hread.
  unfold PyArray_AllocateMaskNA. unfold_monad.
  rewrite Hown, Hhas, Hf, Hd, Hm, Hp, Hdt. simpl.
  rewrite Hc, Hmt, Hnew. simpl. rewrite !Z.mul_1_r.
  generalize dependent (if multina then NPY_MASK else NPY_BOOL). intros dst_t _.
  set (data := junk w <$> seq 0 (Z.to_nat (PyArray_SIZE (fa s)))) in *.
  assert (length data = Z.to_nat (PyArray_SIZE (fa s))) as Hdata
    by (unfold data; by rewrite length_fmap, length_seq).
  clearbody data.
  repeat case_bool_decide; simpl.
  - (* rank 1 *)
    destruct (wf_rank1_lists _ Hwf ltac:(done)) as (n & z & Hdims & Hstr).
    assert (PyArray_SIZE (fa s) = n) as Hsize
      by (apply rank1_SIZE; [done|by rewrite Hdims]).
    assert (∀ k, 0 <= k < n → [k] ∈ elements (fa s)) as Hel.
    { intros k Hk. unfold elements. rewrite Hdims, H.
      apply elem_of_indices. simpl. repeat constructor; lia. }
    rewrite Hstr, Hdims in *. simpl. case_bool_decide; simpl.
    + subst z. rewrite H in Hread'. simpl in Hread'.
      destruct (load_range_is_Some
                  (mem s ++ [Some data]) p_old (Z.to_nat (PyArray_SIZE (fa s))))
        as [vs Hvs].
      { intros k Hk. destruct (Hread' [Z.of_nat k]) as [v Hv]; [apply Hel; lia|].
        exists v. rewrite <-Hv. do 2 f_equal. simpl. lia. }
      rewrite Hvs. simpl.
      apply load_range_Some in Hvs as [Hlen _].
      rewrite store_range_fresh by lia. by eexists.
    + rewrite H in Hread'. simpl in Hread'.
      destruct (cast_loop_is_Some (type_num d_old) dst_t p_old
                  {| blk := length (mem s); ofs := 0 |}
                  ((λ k, (k * z, k * 1)) <$> seqZ 0 n)
                  (mem s ++ [Some data])) as [h' ->].
      { intros so do (k & [= -> ->] & Hk%elem_of_seqZ)%list_elem_of_fmap. split.
        - destruct (Hread' [k]) as [v Hv]; [apply Hel; lia|].
          exists v. rewrite <-Hv. do 2 f_equal. simpl. lia.
        - apply is_Some_load_fresh; simpl; [done|lia]. }
      simpl. by eexists.
  - (* rank at least 2 *)
    destruct (fill_maskna_strides_is_Some _ Hwf 1 Hfit) as [ms Hms].
    rewrite Hms. simpl.
    apply (fill_maskna_strides_placement _ Hwf) in Hms as [Hms _].
    destruct (cast_loop_is_Some (type_num d_old) dst_t p_old
                {| blk := length (mem s); ofs := 0 |}
                ((λ idx, (offset idx (take (nd (fa s)) (maskna_strides (fa s))),
                          offset idx (take (nd (fa s)) ms))) <$>
                   indices (take (nd (fa s)) (dimensions (fa s))))
                (mem s ++ [Some data])) as [h' ->].
    { intros so do (idx & [= -> ->] & Hidx)%list_elem_of_fmap. split.
      - by apply Hread'.
      - apply is_Some_load_fresh; simpl; [done|].
        rewrite (layout_offset _ Hwf _ _ Hms) by done.
        pose proof (layout_bounds _ Hwf _ Hidx). lia. }
    simpl. by eexists.
  - (* rank 0 *)
    destruct (Hread' []) as [v Hv].
    { unfold elements. assert (nd (fa s) = 0%nat) as -> by lia. simpl. left. }
    simpl in Hv. rewrite ptr_add_0 in Hv. rewrite Hv. simpl.
    rewrite rank0_SIZE in Hdata by done.
    change 0 with (Z.of_nat 0). rewrite store_fresh by lia.
    by eexists.
Qed.

(** ** When the flat copy and the strided cast agree *)

Lemma cast_loop_copy src_t dst_t p_old (h : heap) data vs (m k : nat) :
  (blk p_old < length h)%nat →
  length vs = length data → (k + m = length data)%nat →
  (∀ j, (j < length vs)%nat → load h (p_old +ₚ Z.of_nat j) = vs !! j) →
  Forall (λ v, cast_value src_t dst_t v = v) vs →
  cast_loop src_t dst_t p_old {| blk := length h; ofs := 0 |}
    ((λ j, (j * 1, j * 1)) <$> seqZ (Z.of_nat k) (Z.of_nat m))
    (h ++ [Some (take k vs ++ drop k data)]) = Some (h ++ [Some vs]).
Proof.
  intros Hblk Hlen Hkm Hload Hid. revert k Hkm.
  induction m as [|m IH]; intros k Hkm.
  - simpl. rewrite take_ge, drop_ge by lia. by rewrite app_nil_r.
  - rewrite seqZ_cons by lia. simpl.
    rewrite load_old_block by done.
    replace (Z.of_nat k * 1) with (Z.of_nat k) by lia.
    rewrite Hload by lia.
    destruct (lookup_lt_is_Some_2 vs k) as [v Hv]; [lia|].
    destruct (lookup_lt_is_Some_2 data k) as [x Hx]; [lia|].
    rewrite Hv. simpl.
    rewrite Forall_lookup in Hid. rewrite (Hid _ _ Hv).
    unfold ptr_add. simpl. rewrite Z.add_0_l.
    rewrite store_fresh by (rewrite length_app, length_take, length_drop; lia).
    simpl. change (list_fmap ?A ?B ?f ?l) with (f <$> l).
    replace (Z.succ (Z.of_nat k)) with (Z.of_nat (S k)) by lia.
    replace (Z.pred (Z.of_nat (S m))) with (Z.of_nat m) by lia.
    rewrite <-(IH (S k)) by lia. do 4 f_equal.
    rewrite insert_app_r_alt by (rewrite length_take; lia).
    rewrite length_take, Nat.min_l, Nat.sub_diag by lia.
    rewrite (drop_S _ _ _ Hx), (take_S_r _ _ _ Hv). simpl.
    by rewrite <-(assoc_L (++)).
Qed.

(** For a rank-1 array whose prior mask has stride 1, the flat copy
    leaves in the new buffer the bytes that the strided cast would leave
    there, provided the cast maps every prior mask cell to itself. *)
Lemma flat_copy_matches_cast w s d p_old d_old :
  wf_array (fa s) → nd (fa s) = 1%nat →
  maskna_strides (fa s) !! 0%nat = Some 1 →
  maskna_data (fa s) = Some p_old → (blk p_old < length (mem s))%nat →
  maskna_dtype (fa s) = Some d_old → is_mask_type (type_num d_old) = true →
  is_mask_type (type_num d) = true → elsize d = 1 →
  malloc_succeeds w = true → cast_succeeds w = true →
  (∀ idx, idx ∈ elements (fa s) →
     ∃ v, mask_cell (fa s) (mem s) idx = Some v ∧
          cast_value (type_num d_old) (type_num d) v = v) →
  ∃ buf,
    rank1_buffer_after w s d (rank1_flat_copy (fa s)) = Some buf ∧
    rank1_buffer_after w s d (rank1_strided_cast w (fa s)) = Some buf.
Proof.
  intros Hwf Hnd Hst Hp Hblk Hdt Hmt Hmd He Hm Hc Hcells.
  destruct (wf_rank1_lists _ Hwf Hnd) as (n & z & Hdims & Hstr).
  rewrite Hstr in Hst. simplify_eq/=.
  assert (PyArray_SIZE (fa s) = n) as Hsize
    by (apply rank1_SIZE; [done|by rewrite Hdims]).
  assert (0 <= n) as Hn.
  { destruct Hwf as (_ & _ & _ & _ & Hnn). rewrite Hdims in Hnn.
    by apply Forall_cons_1 in Hnn as [? _]. }
  set (data := junk w <$> seq 0 (Z.to_nat n)).
  assert (length data = Z.to_nat n) as Hdata
    by (unfold data; by rewrite length_fmap, length_seq).
  assert (∀ k, (k < Z.to_nat n)%nat →
            ∃ v, load (mem s) (p_old +ₚ Z.of_nat k) = Some v ∧
                 cast_value (type_num d_old) (type_num d) v = v) as Hk.
  { intros k Hk. destruct (Hcells [Z.of_nat k]) as (v & Hv & Hid).
    - unfold elements. rewrite Hdims, Hnd. apply elem_of_indices.
      simpl. repeat constructor; lia.
    - exists v. split; [|done]. unfold mask_cell in Hv.
      rewrite Hp, Hstr, Hnd in Hv. simpl in Hv. rewrite <-Hv.
      do 2 f_equal. lia. }
  destruct (load_range_is_Some (mem s ++ [Some data]) p_old (Z.to_nat n))
    as [vs Hvs].
  { intros k Hlt. destruct (Hk k Hlt) as (v & Hv & _).
    rewrite load_old_block by done. by eexists. }
  pose proof Hvs as [Hlen Hvs']%load_range_Some.
  exists vs. unfold rank1_buffer_after, rank1_flat_copy, rank1_strided_cast.
  unfold_monad. rewrite Hm, Hp, Hdt, Hstr, Hdims, He, Hsize, Z.mul_1_r. simpl.
  fold data. rewrite Hvs. simpl.
  rewrite store_range_fresh by lia. simpl.
  rewrite lookup_fresh_block. simpl. split; [done|].
  rewrite Hc, Hmt, Hmd. simpl.
  pose proof (cast_loop_copy (type_num d_old) (type_num d) p_old (mem s)
                data vs (Z.to_nat n) 0 Hblk) as Hloop.
  rewrite take_0, drop_0, Z2Nat.id in Hloop by done. simpl in Hloop.
  change (Z.of_nat 0) with 0 in Hloop.
  rewrite Hloop; [simpl; by rewrite lookup_fresh_block|lia|lia| |].
  - intros j Hj. rewrite <-Hvs' by lia. symmetry. by apply load_old_block.
  - apply Forall_lookup. intros j v Hv.
    destruct (Hk j) as (v' & Hv' & Hid).
    { apply lookup_lt_Some in Hv. lia. }
    rewrite <-load_old_block with (b := Some data) in Hv' by done.
    rewrite Hvs' in Hv' by (apply lookup_lt_Some in Hv; lia). congruence.
Qed.

(** * Further properties of [PyArray_AllocateMaskNA] *)

(** ** The heap after a call *)

Lemma store_last (h : heap) data p v h' :
  blk p = length h → store (h ++ [Some data]) p v = Some h' →
  ∃ data', h' = h ++ [Some data'] ∧ length data' = length data.
Proof.
  intros Hb (data0 & Hl & _ & ->)%store_Some.
  rewrite Hb, lookup_fresh_block in Hl. simplify_eq.
  eexists. rewrite Hb, insert_fresh_block. split; [done|].
  by rewrite length_insert.
Qed.

Lemma cast_loop_last src_t dst_t src dst offs (h : heap) data h' :
  blk dst = length h →
  cast_loop src_t dst_t src dst offs (h ++ [Some data]) = Some h' →
  ∃ data', h' = h ++ [Some data'] ∧ length data' = length data.
Proof.
  intros Hb. revert data.
  induction offs as [|[so do] offs IH]; intros data H; simplify_eq/=.
  { by eexists. }
  destruct (load _ (src +ₚ so)) as [v|]; simplify_eq/=.
  destruct (store _ (dst +ₚ do) _) as [h1|] eqn:Hst; simplify_eq/=.
  apply store_last in Hst as (data1 & -> & Hlen); [|done].
  destruct (IH _ H) as (data' & -> & Hlen'). exists data'. split; [done|lia].
Qed.

(** A call that returns success has either taken one of the two early
    exits, in which case nothing has changed, or gone through the
    allocation. *)
Lemma AllocateMaskNA_success_cases w ownmaskna multina s s' :
  PyArray_AllocateMaskNA w ownmaskna multina s = Some (0, s') →
  s' = s ∨ allocates (fa s) ownmaskna.
Proof.
  intros H.
  destruct (flag_set (fa s) NPY_ARRAY_OWNMASKNA) eqn:Hown.
  { rewrite AllocateMaskNA_owned in H by done. left. congruence. }
  destruct ownmaskna; [right; split; [done|by left]|].
  destruct (flag_set (fa s) NPY_ARRAY_MASKNA) eqn:Hhas.
  - rewrite AllocateMaskNA_borrowed_ok in H by done. left. congruence.
  - right. split; [done|by right].
Qed.

(** X2.  A successful call that allocates adds exactly one live block to
    the heap, of [elementCount] bytes, and leaves every block that was
    there before as it was: a borrowed prior mask is neither written nor
    freed. *)
Theorem AllocateMaskNA_adds_one_block w ownmaskna multina s s' :
  allocates (fa s) ownmaskna →
  PyArray_AllocateMaskNA w ownmaskna multina s = Some (0, s') →
  ∃ buf, mem s' = mem s ++ [Some buf] ∧
         length buf = Z.to_nat (PyArray_SIZE (fa s)) ∧
         maskna_data (fa s') = Some {| blk := length (mem s); ofs := 0 |}.
Proof.
  intros Halloc Hrun.
  destruct (AllocateMaskNA_success_fa _ _ _ _ _ Halloc Hrun) as (l & _ & Hfa & _).
  rewrite Hfa. simpl. clear Hfa.
  apply allocates_guard in Halloc as [Hown Hreq].
  revert Hrun. unfold PyArray_AllocateMaskNA. unfold_monad.
  rewrite Hown, Hreq.
  generalize (if multina then NPY_MASK else NPY_BOOL). intros dst_t Hrun.
  run_cases.
  all: rewrite ?Z.mul_1_r in *.
  all: repeat match goal with
       | H : load_range _ _ _ = Some _ |- _ =>
           apply load_range_Some in H as [? _]
       | H : store_range _ _ _ = Some _ |- _ =>
           rewrite store_range_fresh in H
             by (rewrite ?length_replicate, length_fmap, length_seq; lia);
           simplify_eq
       | H : cast_loop _ _ _ _ _ _ = Some _ |- _ =>
           apply cast_loop_last in H as (? & -> & ?); [|done]
       | H : store _ _ _ = Some _ |- _ =>
           apply store_last in H as (? & -> & ?); [|done]
       end.
  all: eexists; (split; [done | split; [ | done]]).
  all: rewrite ?length_replicate, ?length_fmap, ?length_seq in *; lia.
Qed.

(** X1.  The four ways in which a call fails.  It returns -1 only in
    one of these situations: the array has fields (RuntimeError, heap
    untouched); the descriptor could not be obtained (the collaborator's
    error, heap untouched); [malloc] returned [NULL] (MemoryError, heap
    untouched); or the cast of a prior mask failed, which can only
    happen in rank 1 or more on an array that had a mask, and then the
    buffer that was allocated has been freed again.  In particular a
    failing call never leaves a live block behind. *)
Theorem AllocateMaskNA_failure_cases w ownmaskna multina s s' :
  PyArray_AllocateMaskNA w ownmaskna multina s = Some (-1, s') →
  (PyArray_HASFIELDS (fa s) = true ∧
   pyerr s' = Some (PyExc_RuntimeError "NumPy field-NA isn't supported yet") ∧
   mem s' = mem s) ∨
  (PyArray_HASFIELDS (fa s) = false ∧ descr_available w = false ∧
   pyerr s' = Some PyExc_FromCollaborator ∧ mem s' = mem s) ∨
  (PyArray_HASFIELDS (fa s) = false ∧ descr_available w = true ∧
   malloc_succeeds w = false ∧
   pyerr s' = Some PyExc_MemoryError ∧ mem s' = mem s) ∨
  (PyArray_HASFIELDS (fa s) = false ∧ descr_available w = true ∧
   malloc_succeeds w = true ∧ hasMask (fa s) ∧ (1 ≤ nd (fa s))%nat ∧
   pyerr s' = Some PyExc_FromCollaborator ∧ mem s' = mem s ++ [None]).
Proof.
  unfold PyArray_AllocateMaskNA, hasMask. unfold_monad. intros H.
  run_cases;
    repeat match goal with
    | H : bool_decide _ = true |- _ => apply bool_decide_eq_true in H
    | H : bool_decide _ = false |- _ => apply bool_decide_eq_false in H
    end;
    rewrite ?insert_fresh_block; try lia;
    first [ by left
          | by right; left
          | by right; right; left
          | right; right; right; split_and!; (done || lia) ].
Qed.

(** X3.  Whatever its outcome, a call leaves the rank, the shape, the
    data strides and the descriptor of the array as they were, and it
    changes no flag other than the two mask flags; a call that succeeds
    also leaves the error indicator as it was. *)
Theorem AllocateMaskNA_frame w ownmaskna multina s r s' :
  PyArray_AllocateMaskNA w ownmaskna multina s = Some (r, s') →
  nd (fa s') = nd (fa s) ∧
  dimensions (fa s') = dimensions (fa s) ∧
  strides (fa s') = strides (fa s) ∧
  descr (fa s') = descr (fa s) ∧
  (∀ bit, Z.land (Z.lor NPY_ARRAY_MASKNA NPY_ARRAY_OWNMASKNA) bit = 0 →
          flag_set (fa s') bit = flag_set (fa s) bit) ∧
  (r = 0 → pyerr s' = pyerr s).
Proof.
  intros H.
  destruct (AllocateMaskNA_result _ _ _ _ _ _ H) as [->| ->].
  - destruct (AllocateMaskNA_success_cases _ _ _ _ _ H) as [->|Halloc]; [done|].
    destruct (AllocateMaskNA_success_fa _ _ _ _ _ Halloc H) as (l & _ & -> & ? & _).
    split_and!; try done.
    intros bit Hbit. unfold flag_set. simpl.
    by rewrite Z.land_lor_distr_l, Hbit, Z.lor_0_r.
  - rewrite (AllocateMaskNA_failure_fa _ _ _ _ _ H). by split_and!.
Qed.

(** X4.  Once a call has allocated a mask, every later call is a no-op
    that returns success, whatever its arguments and whatever the
    collaborators would answer: in particular [multina] cannot change
    the representation of a mask that the array owns. *)
Theorem AllocateMaskNA_then_noop w ownmaskna multina s s' :
  allocates (fa s) ownmaskna →
  PyArray_AllocateMaskNA w ownmaskna multina s = Some (0, s') →
  ∀ w' ownmaskna' multina',
    PyArray_AllocateMaskNA w' ownmaskna' multina' s' = Some (0, s').
Proof.
  intros Halloc Hrun w' o' m'.
  destruct (AllocateMaskNA_success_fa _ _ _ _ _ Halloc Hrun) as (l & _ & Hfa & _).
  apply AllocateMaskNA_owned. eapply flag_set_lor_l; [by rewrite Hfa|done..].
Qed.

(** X5.  On a well-formed array without mask and without fields that is
    not too big (the product of its non-zero extents fits [npy_intp]) the
    call succeeds as soon as the descriptor and the memory are
    available, and its result is fully determined: the mask flags are
    set, the mask descriptor is the one asked for, the new buffer is the
    next block of the heap and holds [elementCount] bytes 1, and the
    strides are those of the packed layout.  The result depends neither
    on [ownmaskna] nor on what the fresh memory contained. *)
Theorem AllocateMaskNA_fresh_result w ownmaskna multina s :
  wf_array (fa s) → array_fits_intp (fa s) →
  ¬ hasMask (fa s) → ¬ ownsMask (fa s) →
  PyArray_HASFIELDS (fa s) = false →
  descr_available w = true → malloc_succeeds w = true →
  ∃ l, new_maskna_strides (fa s) 1 = Some l ∧
    PyArray_AllocateMaskNA w ownmaskna multina s =
      Some (0, {| fa := installed (fa s) (new_dtype multina)
                          {| blk := length (mem s); ofs := 0 |} l;
                  mem := mem s ++
                    [Some (replicate (Z.to_nat (PyArray_SIZE (fa s))) 1)];
                  pyerr := pyerr s |}).
Proof.
  unfold hasMask, ownsMask.
  intros Hwf Hfit Hhas%not_true_is_false Hown%not_true_is_false Hf Hd Hm.
  destruct (AllocateMaskNA_fresh_succeeds w ownmaskna multina s
              Hwf Hfit Hown Hhas Hf Hd Hm) as [s' Hrun].
  assert (allocates (fa s) ownmaskna) as Halloc by (split; [done|by right]).
  destruct (AllocateMaskNA_success_fa _ _ _ _ _ Halloc Hrun)
    as (l & Hl & Hfa & Herr & _).
  pose proof (AllocateMaskNA_fresh_mem _ _ _ _ _ Hown Hhas Hrun) as Hmem.
  exists l. split; [done|]. rewrite Hrun. do 2 f_equal.
  destruct s'. simpl in *. by subst.
Qed.

(** ** The raw copies *)

(** X6.  For a scalar, and for a rank-1 array whose prior mask has
    stride 1, the migration is a raw copy: the mask cell of every
    element after the call holds the very byte it held before, whatever
    the element types of the old and of the new mask are. *)
Theorem AllocateMaskNA_raw_copy w multina s s' p_old :
  wf_array (fa s) → hasMask (fa s) → ¬ ownsMask (fa s) →
  maskna_data (fa s) = Some p_old → (blk p_old < length (mem s))%nat →
  nd (fa s) = 0%nat ∨
    (nd (fa s) = 1%nat ∧ maskna_strides (fa s) !! 0%nat = Some 1) →
  PyArray_AllocateMaskNA w true multina s = Some (0, s') →
  ∀ idx, idx ∈ elements (fa s) →
    ∃ v, mask_cell (fa s) (mem s) idx = Some v ∧
         mask_cell (fa s') (mem s') idx = Some v.
Proof.
  unfold hasMask, ownsMask.
  intros Hwf Hhas Hown%not_true_is_false Hp Hblk Hrank Hrun idx Hidx.
  assert (allocates (fa s) true) as Halloc by (split; [done|by left]).
  destruct (mask_cell_allocated _ _ _ _ _ _ Hwf Halloc Hrun Hidx)
    as (o & Ho & Hoff & ->).
  destruct (AllocateMaskNA_success_fa _ _ _ _ _ Halloc Hrun) as (l & Hl & Hfa & _).
  rewrite Hfa in Hoff. simpl in Hoff. clear Hfa.
  unfold mask_cell. rewrite Hp. simpl.
  revert Hrun. unfold PyArray_AllocateMaskNA. unfold_monad.
  rewrite Hown, Hhas, Hp. simpl.
  generalize (if multina then NPY_MASK else NPY_BOOL). intros dst_t Hrun.
  run_cases.
  all: rewrite ?Z.mul_1_r in *.
  all: repeat match goal with
       | H : bool_decide _ = true |- _ => apply bool_decide_eq_true in H
       | H : bool_decide _ = false |- _ => apply bool_decide_eq_false in H
       end.
  all: match goal with
       | _ : wf_array (fa ?s0) |- _ =>
           rename s0 into s;
           set (data := junk w <$> seq 0 (Z.to_nat (PyArray_SIZE (fa s)))) in *;
           assert (length data = Z.to_nat (PyArray_SIZE (fa s))) as Hdata
             by (unfold data; by rewrite length_fmap, length_seq);
           rewrite <-Hdata in *; clearbody data
       end.
  all: try (destruct Hrank as [?|[? ?]]; simplify_eq; lia).
  - (* rank 1, flat copy *)
    assert (nd (fa s) = 1%nat) as Hnd by done. subst.
    destruct (wf_rank1_lists _ Hwf Hnd) as (n & z & Hdims & Hstr).
    destruct (rank1_elements _ _ Hwf Hnd Hidx) as (i & n' & -> & _ & Hi).
    unfold new_maskna_strides in Hl. rewrite bool_decide_true in Hl by done.
    rewrite Hstr in *. rewrite Hnd in *. simplify_eq/=.
    match goal with
    | Hld : load_range _ _ _ = Some _, Hst : store_range _ _ _ = Some _ |- _ =>
        destruct (migrate_memcpy _ _ _ Hblk _ _ o Hld Hst Ho) as (v & Hv & Hv')
    end.
    exists v. split; [|done]. rewrite <-Hv. do 2 f_equal. lia.
  - (* rank 0 *)
    rewrite (wf_rank0_elements _ _ ltac:(done) ltac:(done) Hidx) in *.
    simpl in Hoff. assert (o = 0%nat) as -> by lia.
    match goal with
    | Hld : load _ p_old = Some ?v, Hst : store _ _ _ = Some _ |- _ =>
        exists v; split; [|by eapply load_store_eq];
        rewrite ptr_add_0, <-Hld; symmetry; by apply load_old_block
    end.
Qed.

(** ** The stride loop, for any permutation *)

(** X7.  The loop that fills the local [maskna_strides], run on any
    [strideperm] whose first [n] items name [n] different axes inside
    the arrays, when the products it forms fit [npy_intp] (after item [i]
    the running stride is the initial stride times the extents of the
    axes of the items from [i] on): it stays inside the arrays and does
    not overflow; the axis of item [i] gets the initial stride times the
    extents of the axes of the items after [i]; the entries of all other
    axes are left alone. *)
Theorem fill_maskna_strides_spec n strideperm shape e ms0 :
  (n ≤ length strideperm)%nat →
  NoDup (perm <$> take n strideperm) →
  (∀ ax, ax ∈ perm <$> take n strideperm →
         (ax < length ms0)%nat ∧ (ax < length shape)%nat) →
  (∀ i, (i < n)%nat →
     intp_fits (e * Zprod (extents shape
                             (perm <$> drop i (take n strideperm))))) →
  ∃ ms,
    fill_maskna_strides n strideperm shape e ms0 = Some ms ∧
    length ms = length ms0 ∧
    (∀ i it, (i < n)%nat → strideperm !! i = Some it →
       ms !! perm it =
         Some (e * Zprod (extents shape
                            (perm <$> drop (S i) (take n strideperm))))) ∧
    (∀ ax, ax ∉ perm <$> take n strideperm → ms !! ax = ms0 !! ax).
Proof.
  intros Hn Hnd Hin Hfit.
  assert (length (perm <$> take n strideperm) = n) as HL
    by (rewrite length_fmap, length_take; lia).
  assert (products_fit (reverse (perm <$> take n strideperm)) shape e) as Hfit'.
  { intros k Hk. rewrite length_reverse, HL in Hk.
    rewrite take_reverse, HL.
    unfold extents. rewrite fmap_reverse, reverse_Permutation.
    rewrite <-fmap_drop. apply (Hfit (n - S k)%nat). lia. }
  clear Hfit.
  set (L := perm <$> take n strideperm) in *.
  assert (NoDup (reverse L)) as Hnd' by (by rewrite reverse_Permutation).
  destruct (assign_strides_is_Some shape (reverse L) e ms0) as [ms Hms].
  { intros ax Hax. rewrite elem_of_reverse in Hax. by apply Hin. }
  exists ms. split; [by apply fill_maskna_strides_of_assign|]. split_and!.
  - by eapply assign_strides_length.
  - intros i it Hi Hit.
    assert (reverse L !! (n - S i)%nat = Some (perm it)) as Hk.
    { apply reverse_lookup_Some. rewrite HL. split; [|lia].
      replace (n - S (n - S i))%nat with i by lia.
      unfold L. rewrite list_lookup_fmap, lookup_take_lt by done.
      by rewrite Hit. }
    rewrite (assign_strides_lookup _ _ _ _ _ _ _ Hms Hnd' Hk). do 2 f_equal.
    rewrite take_reverse, HL.
    replace (n - (n - S i))%nat with (S i) by lia.
    unfold extents. rewrite fmap_reverse, reverse_Permutation.
    unfold L. by rewrite <-fmap_drop.
  - intros ax Hax. eapply assign_strides_other; [done|].
    by rewrite elem_of_reverse.
Qed.

(** Where the stride loop overflows.  The empty array of extents 0, 2^32
    and 2^32 is well formed but too big; the loop visits its axes from
    the last to the first with the running strides 1 and 2^32, and the
    product 2^32 * 2^32 that ends the second iteration does not fit
    [npy_intp]: the call has no defined result. *)
Lemma AllocateMaskNA_overflow_undefined :
  wf_array arr_0x2p32x2p32 ∧ ¬ array_fits_intp arr_0x2p32x2p32 ∧
  placement_order arr_0x2p32x2p32 = [2; 1; 0]%nat ∧
  intp_mul 1 4294967296 = Some 4294967296 ∧
  intp_mul 4294967296 4294967296 = None ∧
  PyArray_AllocateMaskNA world_ok false false (fresh arr_0x2p32x2p32) = None.
Proof.
  split_and!; [|by vm_compute|vm_compute; reflexivity..].
  unfold wf_array; simpl; split_and!;
    [vm_compute; lia|reflexivity..|repeat constructor; lia].
Qed.

(** With the empty axis visited first every running product is zero:
    the same extents in the other order give a call that returns, on an
    array that is too big all the same. *)
Lemma AllocateMaskNA_zero_extent_first :
  ¬ array_fits_intp arr_2p32x2p32x0 ∧
  ∃ s', PyArray_AllocateMaskNA world_ok false false (fresh arr_2p32x2p32x0)
          = Some (0, s') ∧
        maskna_strides (fa s') = [0; 0; 1].
Proof.
  split; [by vm_compute|].
  eexists. split; [vm_compute; reflexivity|reflexivity].
Qed.

Lemma extents_seq shape j m :
  (j + m ≤ length shape)%nat →
  extents shape (seq j m) = take m (drop j shape).
Proof.
  intros Hlen. unfold extents. apply list_eq. intros i.
  rewrite list_lookup_fmap.
  destruct (decide (i < m)%nat).
  - rewrite lookup_seq_lt, lookup_take_lt, lookup_drop by done. simpl.
    symmetry. apply list_lookup_lookup_total_lt. lia.
  - rewrite lookup_take_ge by lia.
    rewrite lookup_ge_None_2; [done|]. rewrite length_seq. lia.
Qed.

Section contiguous.
Context (w : World) (ownmaskna multina : npy_bool) (s s' : state).
Hypothesis Hwf : wf_array (fa s).
Hypothesis Hfit : array_fits_intp (fa s).
Hypothesis Halloc : allocates (fa s) ownmaskna.
Hypothesis Hrun :
  PyArray_AllocateMaskNA w ownmaskna multina s = Some (0, s').

(** X8.  On an array that is not too big (the product of its non-zero
    extents fits [npy_intp]): when the stride-sorted permutation is the
    identity, as it is for data in C order, the mask that is installed
    is C-contiguous: the stride of axis [i] is the product of the extents
    of the axes after [i], and this product fits [npy_intp]. *)
Theorem AllocateMaskNA_C_contiguous i :
  perm <$> PyArray_CreateSortedStridePerm (nd (fa s)) (strides (fa s))
    = seq 0 (nd (fa s)) →
  (i < nd (fa s))%nat →
  maskna_strides (fa s') !! i = Some (Zprod (drop (S i) (dimensions (fa s)))) ∧
  0 <= Zprod (drop (S i) (dimensions (fa s))) <= NPY_MAX_INTP.
Proof using Hwf Hfit Halloc Hrun.
  intros Hperm Hi.
  apply and_wlog_r; [|intros Hst; by eapply allocated_strides_fit].
  pose proof (allocated_strides _ _ _ _ _ Halloc Hrun) as Hl.
  assert (placement_order (fa s) !! (nd (fa s) - S i)%nat = Some i) as Hk.
  { unfold placement_order. rewrite Hperm.
    apply reverse_lookup_Some. rewrite length_seq. split; [|lia].
    rewrite lookup_seq_lt by lia. f_equal. lia. }
  rewrite (new_maskna_strides_lookup _ Hwf _ _ Hl _ _ Hk).
  f_equal. rewrite Z.mul_1_l.
  unfold placement_order. rewrite Hperm, take_reverse, length_seq.
  replace (nd (fa s) - (nd (fa s) - S i))%nat with (S i) by lia.
  unfold extents. rewrite fmap_reverse, reverse_Permutation.
  rewrite drop_seq. simpl.
  pose proof Hwf as (_ & Hd & _).
  fold (extents (dimensions (fa s)) (seq (S i) (nd (fa s) - S i))).
  rewrite extents_seq by lia.
  by rewrite take_ge by (rewrite length_drop; lia).
Qed.

(** X9.  On an array that is not too big (the product of its non-zero
    extents fits [npy_intp]): when the stride-sorted permutation is the
    reversed identity, as it is for data in Fortran order, the mask that
    is installed is F-contiguous: the stride of axis [i] is the product
    of the extents of the axes before [i], and this product fits
    [npy_intp]. *)
Theorem AllocateMaskNA_F_contiguous i :
  perm <$> PyArray_CreateSortedStridePerm (nd (fa s)) (strides (fa s))
    = reverse (seq 0 (nd (fa s))) →
  (i < nd (fa s))%nat →
  maskna_strides (fa s') !! i = Some (Zprod (take i (dimensions (fa s)))) ∧
  0 <= Zprod (take i (dimensions (fa s))) <= NPY_MAX_INTP.
Proof using Hwf Hfit Halloc Hrun.
  intros Hperm Hi.
  apply and_wlog_r; [|intros Hst; by eapply allocated_strides_fit].
  pose proof (allocated_strides _ _ _ _ _ Halloc Hrun) as Hl.
  assert (placement_order (fa s) = seq 0 (nd (fa s))) as Hord.
  { unfold placement_order. by rewrite Hperm, reverse_involutive. }
  assert (placement_order (fa s) !! i = Some i) as Hk.
  { rewrite Hord. by rewrite lookup_seq_lt. }
  rewrite (new_maskna_strides_lookup _ Hwf _ _ Hl _ _ Hk).
  f_equal. rewrite Z.mul_1_l, Hord, take_seq, Nat.min_l by lia.
  pose proof Hwf as (_ & Hd & _).
  rewrite extents_seq by lia. by rewrite drop_0.
Qed.
End contiguous.

(** ** No padding *)

Lemma length_bind_const {A B} (f : A → list B) (l : list A) c :
  (∀ x, length (f x) = c) → length (l ≫= f) = (length l * c)%nat.
Proof.
  intros Hf. induction l as [|x l IH]; [done|].
  rewrite bind_cons, length_app, Hf, IH. simpl. lia.
Qed.

Lemma length_indices shape :
  Forall (λ n, 0 <= n) shape →
  length (indices shape) = Z.to_nat (Zprod shape).
Proof.
  induction 1 as [|n shape Hn Hshape IH]; [done|].
  simpl. rewrite (length_bind_const _ _ (length (indices shape))).
  - rewrite length_seqZ, IH.
    change (Zprod (n :: shape)) with (n * Zprod shape).
    rewrite Z2Nat.inj_mul; [done|done|by apply Zprod_nonneg].
  - intros i. by rewrite length_fmap.
Qed.

(** A list of [n] different numbers below [n] holds every number below
    [n]. *)
Lemma NoDup_below_all (l : list nat) n o :
  NoDup l → length l = n → (∀ x, x ∈ l → (x < n)%nat) → (o < n)%nat → o ∈ l.
Proof.
  intros Hnd Hlen Hlt Ho.
  assert (Permutation l (seq 0 n)) as Hp.
  { apply submseteq_length_Permutation; [|rewrite length_seq; lia].
    apply NoDup_submseteq; [done|].
    intros x Hx. apply elem_of_seq. specialize (Hlt x Hx). lia. }
  rewrite Hp. apply elem_of_seq. lia.
Qed.

(** X10.  The new mask has no padding: every byte of the buffer that a
    successful call allocates is the mask cell of an element of the
    array. *)
Theorem AllocateMaskNA_no_padding w ownmaskna multina s s' o :
  wf_array (fa s) → allocates (fa s) ownmaskna →
  PyArray_AllocateMaskNA w ownmaskna multina s = Some (0, s') →
  0 <= o < PyArray_SIZE (fa s) →
  ∃ idx, idx ∈ elements (fa s) ∧
         offset idx (take (nd (fa s)) (maskna_strides (fa s'))) = o.
Proof.
  intros Hwf Halloc Hrun Ho.
  set (cell idx := Z.to_nat (offset idx (take (nd (fa s))
                                           (maskna_strides (fa s'))))).
  assert (Z.to_nat o ∈ cell <$> elements (fa s)) as Hin.
  { apply (NoDup_below_all _ (Z.to_nat (PyArray_SIZE (fa s)))).
    - apply NoDup_fmap_2_strong; [|apply NoDup_indices].
      intros x y Hx Hy Heq.
      pose proof (allocated_offset_bounds _ _ _ _ _ Hwf Halloc Hrun _ Hx).
      pose proof (allocated_offset_bounds _ _ _ _ _ Hwf Halloc Hrun _ Hy).
      eapply (allocated_offset_inj _ _ _ _ _ Hwf Halloc Hrun); [done..|].
      unfold cell in Heq. lia.
    - rewrite length_fmap. unfold elements.
      rewrite (wf_take_dimensions _ Hwf), length_indices
        by (by destruct Hwf as (_&_&_&_&?)).
      by rewrite PyArray_SIZE_Zprod, (wf_take_dimensions _ Hwf).
    - intros x (idx & -> & Hidx)%list_elem_of_fmap.
      pose proof (allocated_offset_bounds _ _ _ _ _ Hwf Halloc Hrun _ Hidx).
      unfold cell. lia.
    - lia. }
  apply list_elem_of_fmap in Hin as (idx & Heq & Hidx).
  exists idx. split; [done|].
  pose proof (allocated_offset_bounds _ _ _ _ _ Hwf Halloc Hrun _ Hidx).
  unfold cell in Heq. lia.
Qed.

(** ** More on the raw copies and on [PyArray_ContainsNA] *)

(** X11.  The raw copy needs no cast: for a scalar, and for a rank-1
    array whose prior mask has stride 1, the migration succeeds as soon
    as the descriptor and the memory are available and the prior mask
    can be read, even when the cast machinery would fail and whatever
    the element type of the prior mask is (it is never looked at). *)
Theorem AllocateMaskNA_raw_copy_succeeds w multina s p_old :
  wf_array (fa s) → hasMask (fa s) → ¬ ownsMask (fa s) →
  PyArray_HASFIELDS (fa s) = false →
  descr_available w = true → malloc_succeeds w = true →
  maskna_data (fa s) = Some p_old → (blk p_old < length (mem s))%nat →
  nd (fa s) = 0%nat ∨
    (nd (fa s) = 1%nat ∧ maskna_strides (fa s) !! 0%nat = Some 1) →
  (∀ idx, idx ∈ elements (fa s) → is_Some (mask_cell (fa s) (mem s) idx)) →
  ∃ s', PyArray_AllocateMaskNA w true multina s = Some (0, s').
Proof.
  unfold hasMask, ownsMask.
  intros Hwf Hhas Hown%not_true_is_false Hf Hd Hm Hp Hblk Hrank Hread.
  assert (∀ idx, idx ∈ elements (fa s) →
            is_Some (load (mem s ++
                       [Some (junk w <$> seq 0 (Z.to_nat (PyArray_SIZE (fa s))))])
                       (p_old +ₚ offset idx (take (nd (fa s))
                                               (maskna_strides (fa s))))))
    as Hread'.
  { intros idx Hidx. rewrite load_old_block by done.
    specialize (Hread idx Hidx). unfold mask_cell in Hread.
    by rewrite Hp in Hread. }
  clear Hread.
  unfold PyArray_AllocateMaskNA. unfold_monad.
  rewrite Hown, Hhas, Hf, Hd, Hm, Hp. simpl. rewrite !Z.mul_1_r.
  set (data := junk w <$> seq 0 (Z.to_nat (PyArray_SIZE (fa s)))) in *.
  assert (length data = Z.to_nat (PyArray_SIZE (fa s))) as Hdata
    by (unfold data; by rewrite length_fmap, length_seq).
  clearbody data.
  destruct Hrank as [Hnd|[Hnd Hst]].
  - rewrite !bool_decide_false by lia. simpl.
    destruct (Hread' []) as [v Hv].
    { unfold elements. rewrite Hnd. simpl. left. }
    simpl in Hv. rewrite ptr_add_0 in Hv. rewrite Hv. simpl.
    rewrite rank0_SIZE in Hdata by lia.
    change 0 with (Z.of_nat 0). rewrite store_fresh by lia.
    by eexists.
  - rewrite bool_decide_true by done. rewrite Hst. simpl.
    destruct (wf_rank1_lists _ Hwf Hnd) as (n & z & Hdims & Hstr).
    rewrite Hstr in Hst. simplify_eq/=.
    assert (PyArray_SIZE (fa s) = n) as Hsize
      by (apply rank1_SIZE; [done|by rewrite Hdims]).
    destruct (load_range_is_Some
                (mem s ++ [Some data]) p_old (Z.to_nat (PyArray_SIZE (fa s))))
      as [vs Hvs].
    { intros k Hk. destruct (Hread' [Z.of_nat k]) as [v Hv].
      - unfold elements. rewrite Hdims, Hnd. apply elem_of_indices.
        simpl. repeat constructor; lia.
      - exists v. rewrite <-Hv, Hstr, Hnd. do 2 f_equal. simpl. lia. }
    rewrite Hvs. simpl.
    apply load_range_Some in Hvs as [Hlen _].
    rewrite store_range_fresh by lia. by eexists.
Qed.

Lemma fresh_element_status w ownmaskna multina s s' idx :
  wf_array (fa s) → allocates (fa s) ownmaskna → ¬ hasMask (fa s) →
  PyArray_AllocateMaskNA w ownmaskna multina s = Some (0, s') →
  idx ∈ elements (fa s) →
  element_status (fa s') (mem s') idx = Some false.
Proof.
  intros Hwf Halloc Hno%not_true_is_false Hrun Hidx.
  destruct (mask_cell_allocated _ _ _ _ _ _ Hwf Halloc Hrun Hidx)
    as (o & Ho & _ & Hcell).
  unfold element_status. rewrite Hcell.
  rewrite (AllocateMaskNA_fresh_mem _ _ _ _ _ (proj1 Halloc) Hno Hrun).
  rewrite load_fresh_block, lookup_replicate_2 by done. done.
Qed.

(** X12.  On a mask that [PyArray_AllocateMaskNA] has just created for
    an array without a prior mask, the answer of [PyArray_ContainsNA]
    is the documented one: the array has NA support and no element is
    NA. *)
Theorem ContainsNA_after_fresh_mask w ownmaskna multina s s' :
  wf_array (fa s) → (ownsMask (fa s) → hasMask (fa s)) → ¬ hasMask (fa s) →
  PyArray_AllocateMaskNA w ownmaskna multina s = Some (0, s') →
  PyArray_HasNASupport (fa s') = true ∧
  PyArray_ContainsNA (fa s') (mem s') = ContainsNA_spec (fa s') (mem s').
Proof.
  intros Hwf Hinv Hno Hrun.
  pose proof (no_mask_allocates _ ownmaskna Hinv Hno) as Halloc.
  destruct (AllocateMaskNA_success_fa _ _ _ _ _ Halloc Hrun) as (l & _ & Hfa & _).
  assert (PyArray_HasNASupport (fa s') = true) as Hsup.
  { unfold PyArray_HasNASupport, PyArray_HASMASKNA.
    eapply flag_set_lor_l; [by rewrite Hfa|done..]. }
  split; [done|]. rewrite ContainsNA_false. symmetry.
  unfold ContainsNA_spec. rewrite Hsup. simpl.
  apply not_true_is_false. intros (idx & Hin & Hst)%existsb_exists.
  apply bool_decide_eq_true in Hst.
  assert (idx ∈ elements (fa s)) as Hidx.
  { apply list_elem_of_In in Hin. unfold elements in *.
    by rewrite Hfa in Hin. }
  clear Hin.
  pose proof (fresh_element_status _ _ _ _ _ _ Hwf Halloc Hno Hrun Hidx).
  congruence.
Qed.

(** ** Instances *)

Lemma AllocateMaskNA_adds_one_block_witness :
  allocates (fa st_2x3x4_borrowed) true ∧
  PyArray_AllocateMaskNA world_ok true false st_2x3x4_borrowed
    = Some (0, st_2x3x4_migrated) ∧
  ∃ buf, mem st_2x3x4_migrated = mem st_2x3x4_borrowed ++ [Some buf] ∧
         length buf = Z.to_nat (PyArray_SIZE (fa st_2x3x4_borrowed)) ∧
         maskna_data (fa st_2x3x4_migrated) =
           Some {| blk := length (mem st_2x3x4_borrowed); ofs := 0 |}.
Proof.
  assert (allocates (fa st_2x3x4_borrowed) true) as Halloc
    by (split; [reflexivity|left; reflexivity]).
  split; [exact Halloc|]. split; [reflexivity|].
  exact (AllocateMaskNA_adds_one_block world_ok true false st_2x3x4_borrowed
           st_2x3x4_migrated Halloc eq_refl).
Defined.

Lemma AllocateMaskNA_failure_cases_witness :
  PyArray_AllocateMaskNA world_no_cast true false st_2x3x4_borrowed
    = Some (-1, st_2x3x4_cast_failed) ∧
  hasMask (fa st_2x3x4_borrowed) ∧
  pyerr st_2x3x4_cast_failed = Some PyExc_FromCollaborator ∧
  mem st_2x3x4_cast_failed = mem st_2x3x4_borrowed ++ [None].
Proof.
  split; [reflexivity|].
  destruct (AllocateMaskNA_failure_cases world_no_cast true false
              st_2x3x4_borrowed st_2x3x4_cast_failed eq_refl)
    as [(H & _)|[(_ & H & _)|[(_ & _ & H & _)|(_ & _ & _ & Hhas & _ & Herr & Hmem)]]];
    [discriminate H..|].
  split; [exact Hhas|]. split; [exact Herr|exact Hmem].
Defined.

Lemma AllocateMaskNA_frame_witness :
  PyArray_AllocateMaskNA world_ok true false st_2x3x4_borrowed
    = Some (0, st_2x3x4_migrated) ∧
  nd (fa st_2x3x4_migrated) = nd (fa st_2x3x4_borrowed) ∧
  dimensions (fa st_2x3x4_migrated) = dimensions (fa st_2x3x4_borrowed) ∧
  strides (fa st_2x3x4_migrated) = strides (fa st_2x3x4_borrowed) ∧
  descr (fa st_2x3x4_migrated) = descr (fa st_2x3x4_borrowed) ∧
  (∀ bit, Z.land (Z.lor NPY_ARRAY_MASKNA NPY_ARRAY_OWNMASKNA) bit = 0 →
          flag_set (fa st_2x3x4_migrated) bit
            = flag_set (fa st_2x3x4_borrowed) bit) ∧
  (0 = 0 → pyerr st_2x3x4_migrated = pyerr st_2x3x4_borrowed).
Proof.
  split; [reflexivity|].
  exact (AllocateMaskNA_frame world_ok true false st_2x3x4_borrowed 0
           st_2x3x4_migrated eq_refl).
Defined.

Lemma AllocateMaskNA_then_noop_witness :
  allocates (fa (fresh arr_2x3)) false ∧
  PyArray_AllocateMaskNA world_ok false false (fresh arr_2x3)
    = Some (0, st_2x3_masked) ∧
  PyArray_AllocateMaskNA world_no_memory true true st_2x3_masked
    = Some (0, st_2x3_masked).
Proof.
  assert (allocates (fa (fresh arr_2x3)) false) as Halloc
    by (split; [reflexivity|right; reflexivity]).
  split; [exact Halloc|]. split; [reflexivity|].
  exact (AllocateMaskNA_then_noop world_ok false false (fresh arr_2x3)
           st_2x3_masked Halloc eq_refl world_no_memory true true).
Defined.

Lemma AllocateMaskNA_fresh_result_witness :
  wf_array (fa (fresh arr_2x3)) ∧ array_fits_intp (fa (fresh arr_2x3)) ∧
  ¬ hasMask (fa (fresh arr_2x3)) ∧ ¬ ownsMask (fa (fresh arr_2x3)) ∧
  ∃ l, new_maskna_strides (fa (fresh arr_2x3)) 1 = Some l ∧
    PyArray_AllocateMaskNA world_ok true false (fresh arr_2x3) =
      Some (0, {| fa := installed (fa (fresh arr_2x3)) (new_dtype false)
                          {| blk := length (mem (fresh arr_2x3)); ofs := 0 |} l;
                  mem := mem (fresh arr_2x3) ++
                    [Some (replicate
                       (Z.to_nat (PyArray_SIZE (fa (fresh arr_2x3)))) 1)];
                  pyerr := pyerr (fresh arr_2x3) |}).
Proof.
  assert (¬ hasMask (fa (fresh arr_2x3))) as Hhas by (intros H; discriminate H).
  assert (¬ ownsMask (fa (fresh arr_2x3))) as Hown by (intros H; discriminate H).
  assert (array_fits_intp (fa (fresh arr_2x3))) as Hfit
    by (vm_compute; discriminate).
  split; [exact wf_arr_2x3|]. split; [exact Hfit|].
  split; [exact Hhas|]. split; [exact Hown|].
  exact (AllocateMaskNA_fresh_result world_ok true false (fresh arr_2x3)
           wf_arr_2x3 Hfit Hhas Hown eq_refl eq_refl eq_refl).
Defined.

Lemma AllocateMaskNA_raw_copy_witness :
  wf_array (fa st_borrowed) ∧ hasMask (fa st_borrowed) ∧
  ¬ ownsMask (fa st_borrowed) ∧
  PyArray_AllocateMaskNA world_ok true false st_borrowed
    = Some (0, st_borrowed_migrated) ∧
  ([0] ∈ elements (fa st_borrowed) →
   ∃ v, mask_cell (fa st_borrowed) (mem st_borrowed) [0] = Some v ∧
        mask_cell (fa st_borrowed_migrated) (mem st_borrowed_migrated) [0]
          = Some v).
Proof.
  assert (hasMask (fa st_borrowed)) as Hhas by reflexivity.
  assert (¬ ownsMask (fa st_borrowed)) as Hown by (intros H; discriminate H).
  assert (blk {| blk := 0; ofs := 0 |} < length (mem st_borrowed))%nat as Hblk
    by (simpl; lia).
  split; [exact wf_arr_borrowed|]. split; [exact Hhas|].
  split; [exact Hown|]. split; [reflexivity|].
  exact (AllocateMaskNA_raw_copy world_ok false st_borrowed
           st_borrowed_migrated {| blk := 0; ofs := 0 |}
           wf_arr_borrowed Hhas Hown eq_refl Hblk
           (or_intror (conj eq_refl eq_refl)) eq_refl [0]).
Defined.

Lemma fill_maskna_strides_spec_witness :
  intp_fits (1 * Zprod (extents [2; 3] [1; 0]%nat)) ∧
  intp_fits (1 * Zprod (extents [2; 3] [0]%nat)) ∧
  ∃ ms,
    fill_maskna_strides 2 strideperm_10 [2; 3] 1 [0; 0; 0] = Some ms ∧
    length ms = 3%nat ∧
    ms !! 1%nat = Some (1 * 2) ∧ ms !! 0%nat = Some (1 * 1) ∧
    ms !! 2%nat = Some 0.
Proof.
  assert (intp_fits (1 * Zprod (extents [2; 3] [1; 0]%nat))) as H0
    by (vm_compute; split; discriminate).
  assert (intp_fits (1 * Zprod (extents [2; 3] [0]%nat))) as H1
    by (vm_compute; split; discriminate).
  split; [exact H0|]. split; [exact H1|].
  destruct (fill_maskna_strides_spec 2 strideperm_10 [2; 3] 1 [0; 0; 0])
    as (ms & Hms & Hlen & Hk & Hother).
  - simpl. lia.
  - simpl. compute_done.
  - intros ax Hax. simpl in Hax.
    apply elem_of_cons in Hax as [->|Hax]; [simpl; lia|].
    apply elem_of_cons in Hax as [->|Hax]; [simpl; lia|].
    by apply elem_of_nil in Hax.
  - intros [|[|i]] Hi; [exact H0|exact H1|lia].
  - exists ms. split; [exact Hms|]. split; [exact Hlen|]. split_and!.
    + apply (Hk 0%nat {| perm := 1; stride := 24 |}); [lia|reflexivity].
    + apply (Hk 1%nat {| perm := 0; stride := 8 |}); [lia|reflexivity].
    + apply (Hother 2%nat). simpl. compute_done.
Defined.

Lemma AllocateMaskNA_C_contiguous_witness :
  wf_array (fa (fresh arr_2x3)) ∧ array_fits_intp (fa (fresh arr_2x3)) ∧
  allocates (fa (fresh arr_2x3)) false ∧
  PyArray_AllocateMaskNA world_ok false false (fresh arr_2x3)
    = Some (0, st_2x3_masked) ∧
  maskna_strides (fa st_2x3_masked) !! 0%nat = Some (Zprod [3]) ∧
  0 <= Zprod [3] <= NPY_MAX_INTP.
Proof.
  assert (allocates (fa (fresh arr_2x3)) false) as Halloc
    by (split; [reflexivity|right; reflexivity]).
  assert (array_fits_intp (fa (fresh arr_2x3))) as Hfit
    by (vm_compute; discriminate).
  split; [exact wf_arr_2x3|]. split; [exact Hfit|].
  split; [exact Halloc|]. split; [reflexivity|].
  apply (AllocateMaskNA_C_contiguous world_ok false false (fresh arr_2x3)
           st_2x3_masked wf_arr_2x3 Hfit Halloc eq_refl 0%nat eq_refl).
  simpl. lia.
Defined.

Lemma AllocateMaskNA_F_contiguous_witness :
  wf_array (fa (fresh arr_2x3x4_F)) ∧
  array_fits_intp (fa (fresh arr_2x3x4_F)) ∧
  allocates (fa (fresh arr_2x3x4_F)) false ∧
  PyArray_AllocateMaskNA world_ok false false (fresh arr_2x3x4_F)
    = Some (0, st_2x3x4_F_masked) ∧
  maskna_strides (fa st_2x3x4_F_masked) !! 2%nat = Some (Zprod [2; 3]) ∧
  0 <= Zprod [2; 3] <= NPY_MAX_INTP.
Proof.
  assert (allocates (fa (fresh arr_2x3x4_F)) false) as Halloc
    by (split; [reflexivity|right; reflexivity]).
  assert (array_fits_intp (fa (fresh arr_2x3x4_F))) as Hfit
    by (vm_compute; discriminate).
  split; [exact wf_arr_2x3x4_F|]. split; [exact Hfit|].
  split; [exact Halloc|]. split; [reflexivity|].
  apply (AllocateMaskNA_F_contiguous world_ok false false (fresh arr_2x3x4_F)
           st_2x3x4_F_masked wf_arr_2x3x4_F Hfit Halloc eq_refl 2%nat eq_refl).
  simpl. lia.
Defined.

Lemma AllocateMaskNA_no_padding_witness :
  wf_array (fa (fresh arr_2x3x4_F)) ∧
  allocates (fa (fresh arr_2x3x4_F)) false ∧
  PyArray_AllocateMaskNA world_ok false false (fresh arr_2x3x4_F)
    = Some (0, st_2x3x4_F_masked) ∧
  ∃ idx, idx ∈ elements (fa (fresh arr_2x3x4_F)) ∧
         offset idx (take 3 (maskna_strides (fa st_2x3x4_F_masked))) = 23.
Proof.
  assert (allocates (fa (fresh arr_2x3x4_F)) false) as Halloc
    by (split; [reflexivity|right; reflexivity]).
  split; [exact wf_arr_2x3x4_F|]. split; [exact Halloc|]. split; [reflexivity|].
  apply (AllocateMaskNA_no_padding world_ok false false (fresh arr_2x3x4_F)
           st_2x3x4_F_masked 23 wf_arr_2x3x4_F Halloc eq_refl).
  unfold PyArray_SIZE, PyArray_MultiplyList. simpl. lia.
Defined.

Lemma AllocateMaskNA_raw_copy_succeeds_witness :
  wf_array (fa st_borrowed) ∧ hasMask (fa st_borrowed) ∧
  ¬ ownsMask (fa st_borrowed) ∧
  cast_succeeds world_no_cast = false ∧
  ∃ s', PyArray_AllocateMaskNA world_no_cast true false st_borrowed
          = Some (0, s').
Proof.
  assert (hasMask (fa st_borrowed)) as Hhas by reflexivity.
  assert (¬ ownsMask (fa st_borrowed)) as Hown by (intros H; discriminate H).
  assert (blk {| blk := 0; ofs := 0 |} < length (mem st_borrowed))%nat as Hblk
    by (simpl; lia).
  split; [exact wf_arr_borrowed|]. split; [exact Hhas|].
  split; [exact Hown|]. split; [reflexivity|].
  apply (AllocateMaskNA_raw_copy_succeeds world_no_cast false st_borrowed
           {| blk := 0; ofs := 0 |} wf_arr_borrowed Hhas Hown
           eq_refl eq_refl eq_refl eq_refl Hblk
           (or_intror (conj eq_refl eq_refl))).
  intros idx Hidx. vm_compute in Hidx.
  apply elem_of_cons in Hidx as [->|Hidx]; [by eexists|].
  apply elem_of_cons in Hidx as [->|Hidx]; [by eexists|].
  by apply elem_of_nil in Hidx.
Defined.

Lemma ContainsNA_after_fresh_mask_witness :
  wf_array (fa (fresh arr_2x3)) ∧
  ¬ hasMask (fa (fresh arr_2x3)) ∧
  PyArray_AllocateMaskNA world_ok false false (fresh arr_2x3)
    = Some (0, st_2x3_masked) ∧
  PyArray_HasNASupport (fa st_2x3_masked) = true ∧
  PyArray_ContainsNA (fa st_2x3_masked) (mem st_2x3_masked)
    = ContainsNA_spec (fa st_2x3_masked) (mem st_2x3_masked).
Proof.
  assert (ownsMask (fa (fresh arr_2x3)) → hasMask (fa (fresh arr_2x3))) as Hinv
    by (intros H; discriminate H).
  assert (¬ hasMask (fa (fresh arr_2x3))) as Hno by (intros H; discriminate H).
  split; [exact wf_arr_2x3|]. split; [exact Hno|]. split; [reflexivity|].
  exact (ContainsNA_after_fresh_mask world_ok false false (fresh arr_2x3)
           st_2x3_masked wf_arr_2x3 Hinv Hno eq_refl).
Defined.

Lemma AllocateMaskNA_twice_witness :
  PyArray_AllocateMaskNA world_ok false false st_borrowed
    = Some (0, st_borrowed) ∧
  PyArray_AllocateMaskNA world_ok false false st_borrowed
    = Some (0, st_borrowed).
Proof.
  split; [reflexivity|].
  exact (AllocateMaskNA_twice world_ok false false st_borrowed st_borrowed
           eq_refl).
Defined.
